(** * bmdcapture: the packet queue, the frame packagers and the writer loop

    A shallow embedding of [src/bmdcapture.c] and the properties its
    specification states about it.

    - C integers are [Z] with the conversions written out ([u64], [s32]);
      [int] arithmetic that overflows is taken to wrap around.
    - The linked list of [AVPacketList] nodes lives in a heap, a finite map
      from addresses to nodes; [NULL] is [None].
    - The queue's mutex makes each critical section one atomic step; the
      functions below are those steps.  [pthread_cond_wait] is the outcome
      [Wait] of one turn of [avpacket_queue_get]'s loop.
    - libavcodec/libavformat and the allocator are outside the repository;
      their answers are inputs ([env]) of the functions that call them. *)

From stdpp Require Import gmap list fin_maps.
From Stdlib Require Import ZArith Lia.

Local Open Scope Z_scope.

(** ** Machine integers *)

Module CInt.

Definition u64 (x : Z) : Z := x mod 2 ^ 64.
Definition s32 (x : Z) : Z := (x + 2 ^ 31) mod 2 ^ 32 - 2 ^ 31.

Definition INT_MAX : Z := 2 ^ 31 - 1.
Definition INT64_MIN : Z := - 2 ^ 63.

(** [a / b] on [int64_t]: truncation towards zero; a zero divisor and
    [INT64_MIN / -1] have no defined result. *)
Definition div64 (a b : Z) : option Z :=
  if b =? 0 then None
  else if (a =? INT64_MIN) && (b =? -1) then None
  else Some (a ÷ b).

Lemma u64_range x : 0 <= u64 x < 2 ^ 64.
Proof. unfold u64. apply Z.mod_pos_bound. lia. Qed.

Lemma u64_small x : 0 <= x < 2 ^ 64 -> u64 x = x.
Proof. intros H. unfold u64. apply Z.mod_small. exact H. Qed.

Lemma s32_small x : - 2 ^ 31 <= x <= INT_MAX -> s32 x = x.
Proof.
  unfold s32, INT_MAX. intros H.
  rewrite Z.mod_small; lia.
Qed.

Lemma u64_add_l a b : u64 (u64 a + b) = u64 (a + b).
Proof. unfold u64. apply Zplus_mod_idemp_l. Qed.

Lemma u64_add_r a b : u64 (a + u64 b) = u64 (a + b).
Proof. unfold u64. apply Zplus_mod_idemp_r. Qed.

Lemma u64_sub_l a b : u64 (u64 a - b) = u64 (a - b).
Proof. unfold u64. apply Zminus_mod_idemp_l. Qed.

Lemma u64_sub_r a b : u64 (a - u64 b) = u64 (a - b).
Proof. unfold u64. apply Zminus_mod_idemp_r. Qed.

Lemma s32_add_l a b : s32 (s32 a + b) = s32 (a + b).
Proof.
  unfold s32.
  replace ((a + 2 ^ 31) mod 2 ^ 32 - 2 ^ 31 + b + 2 ^ 31)
    with ((a + 2 ^ 31) mod 2 ^ 32 + b) by lia.
  rewrite Zplus_mod_idemp_l. f_equal. f_equal. lia.
Qed.

End CInt.
Import CInt.

(** ** Packets, list nodes and the queue record *)

Abbreviation addr := positive.

(** The fields of libavcodec's [AVPacket] that the program touches. *)
Record AVPacket := mkAVPacket {
  pkt_pts : Z;
  pkt_dts : Z;
  pkt_duration : Z;
  pkt_flags : Z;
  pkt_stream_index : Z;
  pkt_data : Z;
  pkt_size : Z
}.

Record AVPacketList := mkAVPacketList {
  pkt : AVPacket;
  next : option addr
}.

(** [mutex] is not a field here: the code between lock and unlock is one
    step.  [cond] counts the [pthread_cond_signal] calls on it. *)
Record AVPacketQueue := mkAVPacketQueue {
  first_pkt : option addr;
  last_pkt : option addr;
  nb_packets : Z;
  q_size : Z;
  abort_request : Z;
  q_cond : nat
}.

(** The queue, the heap of list nodes, and the packets handed to
    [av_packet_unref], oldest first. *)
Record world := mkWorld {
  queue : AVPacketQueue;
  heap : gmap addr AVPacketList;
  unrefd : list AVPacket
}.

(** What the environment answers during one call: the result of
    [av_malloc], the return value of [av_packet_ref] and the payload address
    of the reference it made, and what the caller's stack slot held. *)
Record env := mkEnv {
  malloc_ret : option addr;
  ref_ret : Z;
  ref_data : Z;
  stack_pkt : AVPacket
}.

Definition ENOMEM : Z := 12.
Definition AVERROR (e : Z) : Z := - e.
Definition AV_PKT_FLAG_KEY : Z := 1.
Definition AV_NOPTS_VALUE : Z := - 2 ^ 63.

(** A block fresh from [av_malloc] holds no meaningful data (it is written
    before it is read). *)
Definition blank_pkt : AVPacket := mkAVPacket 0 0 0 0 0 0 0.
Definition blank_node : AVPacketList := mkAVPacketList blank_pkt None.

Definition av_malloc (a : addr) (h : gmap addr AVPacketList)
  : gmap addr AVPacketList := <[a := blank_node]> h.

Definition av_free (a : addr) (h : gmap addr AVPacketList)
  : gmap addr AVPacketList := delete a h.

(** [av_packet_ref(dst, src)]: on success [dst] is a new reference to the
    payload of [src] with every property copied; a negative value reports a
    failed allocation. *)
Definition av_packet_ref (e : env) (src : AVPacket) : Z * AVPacket :=
  (ref_ret e,
   mkAVPacket (pkt_pts src) (pkt_dts src) (pkt_duration src) (pkt_flags src)
              (pkt_stream_index src) (ref_data e) (pkt_size src)).

(** [av_init_packet]: default values for the optional fields; [data] and
    [size] are left as they were. *)
Definition av_init_packet (p : AVPacket) : AVPacket :=
  mkAVPacket AV_NOPTS_VALUE AV_NOPTS_VALUE 0 0 0 (pkt_data p) (pkt_size p).

Definition set_next (n : AVPacketList) (p : option addr) : AVPacketList :=
  mkAVPacketList (pkt n) p.

Inductive outcome (A : Type) : Type :=
  | Ret (a : A)
  | Wait
  | Fault.
Arguments Ret {A} a.
Arguments Wait {A}.
Arguments Fault {A}.

Section Queue.

(** [sizeof(AVPacketList)], fixed by libavcodec's headers. *)
Variable sizeof_AVPacketList : Z.

Definition avpacket_queue_init : world :=
  mkWorld (mkAVPacketQueue None None 0 0 0 0%nat) ∅ [].

(** [pkt1->pkt.size + sizeof( *pkt1 )]: [int] plus [size_t]. *)
Definition node_bytes (k : AVPacket) : Z :=
  u64 (u64 (pkt_size k) + sizeof_AVPacketList).

(** The loop of [avpacket_queue_flush].  Every turn frees one node of the
    heap, so [size h] turns are enough; [None] is a read through a pointer
    that is not allocated. *)
Fixpoint flush_loop (fuel : nat) (h : gmap addr AVPacketList)
    (u : list AVPacket) (p : option addr)
  : option (gmap addr AVPacketList * list AVPacket) :=
  match p with
  | None => Some (h, u)
  | Some a =>
      match fuel, h !! a with
      | S f, Some n => flush_loop f (av_free a h) (u ++ [pkt n]) (next n)
      | _, _ => None
      end
  end.

Definition avpacket_queue_flush (w : world) : option world :=
  let q := queue w in
  match flush_loop (size (heap w)) (heap w) (unrefd w) (first_pkt q) with
  | None => None
  | Some (h, u) =>
      Some (mkWorld (mkAVPacketQueue None None 0 0 (abort_request q) (q_cond q)) h u)
  end.

(** [avpacket_queue_end]: the flush; destroying the mutex and the condition
    variable leaves nothing behind in this model. *)
Definition avpacket_queue_end (w : world) : option world :=
  avpacket_queue_flush w.

(** [None] is a write through a [last_pkt] that is not allocated. *)
Definition avpacket_queue_put (e : env) (w : world) (p : AVPacket)
  : option (world * Z) :=
  let q := queue w in
  match malloc_ret e with
  | None => Some (w, AVERROR ENOMEM)
  | Some pkt1 =>
      let h1 := av_malloc pkt1 (heap w) in
      let '(ret, ref) := av_packet_ref e p in
      if ret <? 0 then
        Some (mkWorld q (av_free pkt1 h1) (unrefd w), ret)
      else
        let h2 := <[pkt1 := mkAVPacketList ref None]> h1 in
        let linked :=
          match last_pkt q with
          | None => Some (h2, Some pkt1)
          | Some l =>
              match h2 !! l with
              | None => None
              | Some n => Some (<[l := set_next n (Some pkt1)]> h2, first_pkt q)
              end
          end in
        match linked with
        | None => None
        | Some (h3, first) =>
            Some (mkWorld
                    (mkAVPacketQueue first (Some pkt1)
                       (s32 (nb_packets q + 1))
                       (u64 (q_size q + node_bytes ref))
                       (abort_request q)
                       (S (q_cond q)))
                    h3 (unrefd w),
                  0)
        end
  end.

(** One turn of the [for (;;)] loop of [avpacket_queue_get], under the
    lock.  [Wait] is [pthread_cond_wait]: the thread sleeps with the state
    as it is, and when woken takes another turn at the state it finds. *)
Definition avpacket_queue_get (w : world) (p : AVPacket) (block : Z)
  : outcome (world * AVPacket * Z) :=
  let q := queue w in
  match first_pkt q with
  | Some pkt1 =>
      match heap w !! pkt1 with
      | None => Fault
      | Some n =>
          let first := next n in
          let last := match first with None => None | Some _ => last_pkt q end in
          Ret (mkWorld
                 (mkAVPacketQueue first last
                    (s32 (nb_packets q - 1))
                    (u64 (q_size q - node_bytes (pkt n)))
                    (abort_request q)
                    (q_cond q))
                 (av_free pkt1 (heap w)) (unrefd w),
               pkt n, 1)
      end
  | None => if block =? 0 then Ret (w, p, 0) else Wait
  end.

Definition avpacket_queue_size (w : world) : Z := q_size (queue w).

(** *** The list the heap holds

    [chain h p l]: from pointer [p] the heap [h] holds the nodes at the
    addresses and with the packets listed in [l], linked in that order
    and ended by [NULL]. *)
Fixpoint chain (h : gmap addr AVPacketList) (p : option addr)
    (l : list (addr * AVPacket)) : Prop :=
  match l with
  | [] => p = None
  | (a, k) :: l' =>
      p = Some a ∧ ∃ nx, h !! a = Some (mkAVPacketList k nx) ∧ chain h nx l'
  end.

Record queue_rep (w : world) (l : list (addr * AVPacket)) : Prop := {
  rep_chain : chain (heap w) (first_pkt (queue w)) l;
  rep_nodup : NoDup l.*1;
  rep_last : last_pkt (queue w) = last l.*1
}.

(** [size_bytes]: payload size plus the bookkeeping of one node. *)
Definition size_bytes (k : AVPacket) : Z := pkt_size k + sizeof_AVPacketList.

Definition total_bytes (l : list AVPacket) : Z :=
  foldr (λ k s, size_bytes k + s) 0 l.

Definition free_all (l : list addr) (h : gmap addr AVPacketList)
  : gmap addr AVPacketList := foldl (λ m a, av_free a m) h l.

Lemma node_bytes_size_bytes k : node_bytes k = u64 (size_bytes k).
Proof. unfold node_bytes, size_bytes. apply u64_add_l. Qed.

Lemma total_bytes_app l1 l2 :
  total_bytes (l1 ++ l2) = total_bytes l1 + total_bytes l2.
Proof. induction l1 as [|k l1 IH]; simpl; [done | rewrite IH; lia]. Qed.

Lemma chain_allocated h p l a :
  chain h p l → a ∈ l.*1 → is_Some (h !! a).
Proof.
  revert p. induction l as [|[b k] l IH]; simpl; intros p Hc Ha.
  - by apply elem_of_nil in Ha.
  - destruct Hc as (_ & nx & Hb & Hc).
    apply elem_of_cons in Ha as [->|Ha]; [by eexists | by eapply IH].
Qed.

Lemma chain_fresh h p l a : chain h p l → h !! a = None → a ∉ l.*1.
Proof.
  intros Hc Hn Ha. destruct (chain_allocated _ _ _ _ Hc Ha) as [x Hx].
  congruence.
Qed.

Lemma chain_ext h h' p l :
  (∀ a, a ∈ l.*1 → h' !! a = h !! a) → chain h p l → chain h' p l.
Proof.
  revert p. induction l as [|[b k] l IH]; simpl; intros p He Hc; [done|].
  destruct Hc as (-> & nx & Hb & Hc). split; [done|]. exists nx. split.
  - rewrite He; [done | by left].
  - apply IH; [| done]. intros a Ha. apply He. by right.
Qed.

Lemma chain_functional h p l1 l2 : chain h p l1 → chain h p l2 → l1 = l2.
Proof.
  revert p l2. induction l1 as [|[a k] l1 IH]; intros p [|[b j] l2]; simpl.
  - done.
  - intros -> (? & _). done.
  - intros (-> & _) ?. done.
  - intros (-> & nx & Ha & H1) (Hb & ny & Hb' & H2).
    injection Hb as <-. rewrite Ha in Hb'. injection Hb' as <- <-.
    f_equal. by eapply IH.
Qed.

(** Linking a new last node [a] behind a chain that does not contain it. *)
Lemma chain_snoc h p l a k :
  chain h p l → a ∉ l.*1 → NoDup l.*1 →
  let h2 := <[a := mkAVPacketList k None]> h in
  match last l.*1 with
  | None => chain h2 (Some a) (l ++ [(a, k)])
  | Some b =>
      ∃ n, h2 !! b = Some n ∧
           chain (<[b := set_next n (Some a)]> h2) p (l ++ [(a, k)])
  end.
Proof.
  revert p. induction l as [|[b j] l IH]; intros p Hc Ha Hnd h2.
  - simpl. split; [done|]. exists None. subst h2. by rewrite lookup_insert_eq.
  - destruct Hc as (-> & nx & Hb & Hc).
    rewrite fmap_cons in Ha, Hnd. simpl fst in *.
    apply not_elem_of_cons in Ha as [Hab Ha].
    apply NoDup_cons in Hnd as [Hbl Hnd].
    specialize (IH nx Hc Ha Hnd). simpl in IH. fold h2 in IH.
    rewrite fmap_cons, last_cons. simpl fst.
    destruct (last l.*1) as [d|] eqn:Hl.
    + destruct IH as (n & Hn & IH). exists n. split; [done|].
      assert (b ≠ d).
      { intros ->. apply Hbl. by apply last_Some_elem_of. }
      simpl. split; [done|]. exists nx. split; [|done].
      rewrite lookup_insert_ne; [|done]. subst h2. by rewrite lookup_insert_ne.
    + apply last_None, fmap_nil_inv in Hl. subst l. simpl in Hc. subst nx.
      exists (mkAVPacketList j None). split.
      * subst h2. by rewrite lookup_insert_ne.
      * simpl. split; [done|]. exists (Some a).
        split; [by rewrite lookup_insert_eq|].
        split; [done|]. exists None. split; [|done].
        rewrite lookup_insert_ne; [|done]. subst h2. by rewrite lookup_insert_eq.
Qed.

(** *** What each operation does to a well-formed queue *)

(** The unit a successful [put] stores in its node. *)
Definition stored (e : env) (p : AVPacket) : AVPacket := (av_packet_ref e p).2.

(** The allocator answers [NULL] or an address that is not in use. *)
Definition env_ok (e : env) (w : world) : bool :=
  match malloc_ret e with
  | None => true
  | Some a => match heap w !! a with None => true | Some _ => false end
  end.

(** Both allocations of a [put] succeed: the node and the reference. *)
Definition put_succeeds (e : env) : bool :=
  match malloc_ret e with
  | None => false
  | Some _ => 0 <=? ref_ret e
  end.

Lemma init_rep : queue_rep avpacket_queue_init [].
Proof. split; simpl; [done | constructor | done]. Qed.

Lemma put_success e w p l a :
  queue_rep w l → malloc_ret e = Some a → heap w !! a = None →
  0 <= ref_ret e →
  ∃ w', avpacket_queue_put e w p = Some (w', 0) ∧
        queue_rep w' (l ++ [(a, stored e p)]) ∧
        nb_packets (queue w') = s32 (nb_packets (queue w) + 1) ∧
        q_size (queue w') = u64 (q_size (queue w) + node_bytes (stored e p)) ∧
        q_cond (queue w') = S (q_cond (queue w)) ∧
        abort_request (queue w') = abort_request (queue w) ∧
        unrefd w' = unrefd w.
Proof.
  intros [Hc Hnd Hl] Hm Hf Hr.
  pose proof (chain_fresh _ _ _ _ Hc Hf) as Ha.
  pose proof (chain_snoc _ _ _ a (stored e p) Hc Ha Hnd) as Hs.
  unfold avpacket_queue_put. rewrite Hm.
  change (av_packet_ref e p) with (ref_ret e, stored e p).
  cbv beta iota zeta.
  destruct (ref_ret e <? 0) eqn:Hneg; [lia|].
  unfold av_malloc. rewrite insert_insert_eq.
  assert (Hnd' : NoDup (l ++ [(a, stored e p)]).*1).
  { rewrite fmap_app. apply NoDup_app. repeat split; [done | | apply NoDup_singleton].
    intros x Hx Hx'. apply list_elem_of_singleton in Hx'. by subst x. }
  assert (Hl' : Some a = last (l ++ [(a, stored e p)]).*1).
  { rewrite fmap_app. simpl. by rewrite last_snoc. }
  rewrite Hl. cbv zeta in Hs.
  destruct (last l.*1) as [b|].
  - destruct Hs as (n & Hn & Hs). rewrite Hn.
    eexists. split; [reflexivity|]. repeat split; simpl; done.
  - eexists. split; [reflexivity|]. repeat split; simpl; done.
Qed.

Lemma put_failure e w p :
  env_ok e w = true → put_succeeds e = false →
  ∃ r, avpacket_queue_put e w p = Some (w, r) ∧ r < 0 ∧
       (malloc_ret e = None ∧ r = AVERROR ENOMEM ∨
        is_Some (malloc_ret e) ∧ ref_ret e < 0 ∧ r = ref_ret e).
Proof.
  unfold env_ok, put_succeeds, avpacket_queue_put. intros Hok Hf.
  destruct (malloc_ret e) as [a|].
  - destruct (heap w !! a) eqn:Hfree; [done|].
    change (av_packet_ref e p) with (ref_ret e, stored e p).
    cbv beta iota zeta.
    destruct (ref_ret e <? 0) eqn:Hneg.
    + exists (ref_ret e). unfold av_free, av_malloc.
      rewrite delete_insert_id by done. destruct w. simpl.
      split; [done|]. split; [lia|]. right.
      split; [by eexists|]. split; [lia | done].
    + lia.
  - exists (AVERROR ENOMEM). split; [done|]. split; [done | by left].
Qed.

Lemma get_head w l a k p block :
  queue_rep w ((a, k) :: l) →
  ∃ w', avpacket_queue_get w p block = Ret (w', k, 1) ∧
        queue_rep w' l ∧
        heap w' = av_free a (heap w) ∧
        nb_packets (queue w') = s32 (nb_packets (queue w) - 1) ∧
        q_size (queue w') = u64 (q_size (queue w) - node_bytes k) ∧
        q_cond (queue w') = q_cond (queue w) ∧
        abort_request (queue w') = abort_request (queue w) ∧
        unrefd w' = unrefd w.
Proof.
  intros [Hc Hnd Hl]. simpl in Hc. destruct Hc as (Hf & nx & Ha & Hc).
  rewrite fmap_cons in Hnd, Hl. simpl fst in *.
  apply NoDup_cons in Hnd as [Hal Hnd].
  unfold avpacket_queue_get. rewrite Hf, Ha. simpl.
  eexists. split; [reflexivity|]. repeat split; simpl; try done.
  - apply (chain_ext (heap w)); [|done].
    intros b Hb. unfold av_free. apply lookup_delete_ne. by intros ->.
  - destruct l as [|[b j] l]; simpl in Hc.
    + by subst nx.
    + destruct Hc as (-> & _). by rewrite Hl.
Qed.

Lemma get_empty w p block :
  queue_rep w [] →
  avpacket_queue_get w p block = if block =? 0 then Ret (w, p, 0) else Wait.
Proof.
  intros [Hc _ _]. simpl in Hc. unfold avpacket_queue_get. by rewrite Hc.
Qed.

Lemma chain_size h p l : chain h p l → NoDup l.*1 → (length l ≤ size h)%nat.
Proof.
  revert h p. induction l as [|[a k] l IH]; intros h p Hc Hnd; simpl; [lia|].
  destruct Hc as (-> & nx & Ha & Hc).
  rewrite fmap_cons in Hnd. apply NoDup_cons in Hnd as [Hal Hnd].
  assert (chain (delete a h) nx l) as Hc'.
  { apply (chain_ext h); [|done].
    intros b Hb. apply lookup_delete_ne. by intros ->. }
  specialize (IH _ _ Hc' Hnd).
  rewrite map_size_delete, Ha in IH. simpl in IH.
  assert (size h ≠ 0%nat).
  { intros H0. apply map_size_empty_inv in H0. subst h.
    by rewrite lookup_empty in Ha. }
  lia.
Qed.

Lemma flush_loop_chain fuel h u p l :
  chain h p l → NoDup l.*1 → (length l ≤ fuel)%nat →
  flush_loop fuel h u p = Some (free_all l.*1 h, u ++ l.*2).
Proof.
  revert fuel h u p. induction l as [|[a k] l IH]; intros fuel h u p Hc Hnd Hlen.
  - simpl in Hc. subst p. destruct fuel; simpl; by rewrite app_nil_r.
  - destruct Hc as (-> & nx & Ha & Hc).
    rewrite fmap_cons in Hnd. apply NoDup_cons in Hnd as [Hal Hnd].
    destruct fuel as [|fuel]; simpl in Hlen; [lia|].
    simpl. rewrite Ha. simpl. rewrite (IH fuel _ _ nx).
    + by rewrite <- app_assoc.
    + apply (chain_ext h); [|done].
      intros b Hb. unfold av_free. apply lookup_delete_ne. by intros ->.
    + done.
    + lia.
Qed.

Lemma free_all_lookup l h a :
  free_all l h !! a = if bool_decide (a ∈ l) then None else h !! a.
Proof.
  revert h. induction l as [|b l IH]; intros h.
  - case_bool_decide as H; [by apply elem_of_nil in H | done].
  - change (free_all (b :: l) h) with (free_all l (av_free b h)).
    rewrite IH. unfold av_free.
    destruct (decide (a = b)) as [->|Hne].
    + rewrite lookup_delete_eq.
      rewrite (bool_decide_eq_true_2 (b ∈ b :: l)) by left.
      by case_bool_decide.
    + rewrite lookup_delete_ne by done.
      destruct (decide (a ∈ l)) as [Hin|Hni].
      * rewrite !bool_decide_eq_true_2; [done | by right | done].
      * rewrite !bool_decide_eq_false_2; [done | | done].
        intros [?|?]%elem_of_cons; done.
Qed.

Lemma flush_rep w l :
  queue_rep w l →
  avpacket_queue_flush w =
    Some (mkWorld
            (mkAVPacketQueue None None 0 0 (abort_request (queue w)) (q_cond (queue w)))
            (free_all l.*1 (heap w)) (unrefd w ++ l.*2)).
Proof.
  intros [Hc Hnd Hl]. unfold avpacket_queue_flush.
  rewrite (flush_loop_chain _ _ _ _ l); try done.
  by eapply chain_size.
Qed.

Lemma put_success_ok e w p l :
  queue_rep w l → env_ok e w = true → put_succeeds e = true →
  ∃ w' a, malloc_ret e = Some a ∧
        avpacket_queue_put e w p = Some (w', 0) ∧
        queue_rep w' (l ++ [(a, stored e p)]) ∧
        nb_packets (queue w') = s32 (nb_packets (queue w) + 1) ∧
        q_size (queue w') = u64 (q_size (queue w) + node_bytes (stored e p)) ∧
        q_cond (queue w') = S (q_cond (queue w)) ∧
        abort_request (queue w') = abort_request (queue w) ∧
        unrefd w' = unrefd w.
Proof.
  unfold env_ok, put_succeeds. intros Hrep Hok Hs.
  destruct (malloc_ret e) as [a|] eqn:Hm; [|done].
  destruct (heap w !! a) eqn:Hfree; [done|].
  destruct (put_success e w p l a) as (w' & H); [done | done | done | lia |].
  by exists w', a.
Qed.

(** *** Sequences of operations *)

Inductive op : Type :=
  | Put (e : env) (p : AVPacket)
  | Get (p : AVPacket) (block : Z).

(** A [get] that waits leaves the state as it is. *)
Definition apply_op (o : op) (w : world) : option world :=
  match o with
  | Put e p => fst <$> avpacket_queue_put e w p
  | Get p block =>
      match avpacket_queue_get w p block with
      | Ret (w', _, _) => Some w'
      | Wait => Some w
      | Fault => None
      end
  end.

Definition op_ok (o : op) (w : world) : bool :=
  match o with
  | Put e _ => env_ok e w
  | Get _ _ => true
  end.

Fixpoint apply_ops (ops : list op) (w : world) : option world :=
  match ops with
  | [] => Some w
  | o :: ops' =>
      match apply_op o w with
      | Some w' => apply_ops ops' w'
      | None => None
      end
  end.

(** Every allocation along the run answers a free address. *)
Fixpoint ops_ok (ops : list op) (w : world) : bool :=
  match ops with
  | [] => true
  | o :: ops' =>
      op_ok o w &&
      match apply_op o w with
      | Some w' => ops_ok ops' w'
      | None => true
      end
  end.

(** The counters agree with the list, up to the width of their types. *)
Definition accounted (w : world) (l : list (addr * AVPacket)) : Prop :=
  nb_packets (queue w) = s32 (Z.of_nat (length l)) ∧
  q_size (queue w) = u64 (total_bytes l.*2).

Lemma apply_op_accounted o w l :
  queue_rep w l → accounted w l → op_ok o w = true →
  ∃ w' l', apply_op o w = Some w' ∧ queue_rep w' l' ∧ accounted w' l'.
Proof.
  intros Hrep [Hn Hs] Hok. destruct o as [e p|p block]; simpl in *.
  - destruct (put_succeeds e) eqn:Hsucc.
    + destruct (put_success_ok e w p l Hrep Hok Hsucc)
        as (w' & a & _ & Hput & Hrep' & Hn' & Hs' & _).
      exists w', (l ++ [(a, stored e p)]). rewrite Hput. simpl.
      split; [done|]. split; [done|]. split.
      * rewrite Hn', Hn, s32_add_l, length_app. simpl. f_equal. lia.
      * rewrite Hs', Hs, node_bytes_size_bytes, u64_add_l, u64_add_r.
        rewrite fmap_app, total_bytes_app.
        change (total_bytes [(a, stored e p)].*2) with (size_bytes (stored e p) + 0).
        f_equal. lia.
    + destruct (put_failure e w p Hok Hsucc) as (r & Hput & _).
      exists w, l. rewrite Hput. by simpl.
  - destruct l as [|[a k] l].
    + rewrite (get_empty w p block Hrep). exists w, [].
      by destruct (block =? 0).
    + destruct (get_head w l a k p block Hrep)
        as (w' & Hget & Hrep' & _ & Hn' & Hs' & _).
      exists w', l. rewrite Hget. split; [done|]. split; [done|]. split.
      * rewrite Hn', Hn. simpl length.
        replace (s32 (Z.of_nat (S (length l))) - 1)
          with (s32 (Z.of_nat (S (length l))) + -1) by lia.
        rewrite s32_add_l. f_equal. lia.
      * rewrite Hs', Hs, node_bytes_size_bytes, u64_sub_l, u64_sub_r.
        change (total_bytes ((a, k) :: l).*2)
          with (size_bytes k + total_bytes l.*2).
        f_equal. lia.
Qed.

Lemma apply_ops_accounted ops w l :
  queue_rep w l → accounted w l → ops_ok ops w = true →
  ∃ w' l', apply_ops ops w = Some w' ∧ queue_rep w' l' ∧ accounted w' l'.
Proof.
  revert w l. induction ops as [|o ops IH]; intros w l Hrep Hacc Hok.
  - by exists w, l.
  - simpl in Hok. apply andb_true_iff in Hok as [Ho Hok].
    destruct (apply_op_accounted o w l Hrep Hacc Ho) as (w1 & l1 & Ha & Hr1 & Ha1).
    simpl. rewrite Ha in Hok |- *. by eapply IH.
Qed.

(** A run of [put] calls, and a run of [get] calls each of which returns;
    the caller's packet variable is carried from one [get] to the next. *)
Fixpoint put_all (ps : list (env * AVPacket)) (w : world) : option world :=
  match ps with
  | [] => Some w
  | (e, p) :: ps' =>
      match avpacket_queue_put e w p with
      | Some (w', _) => put_all ps' w'
      | None => None
      end
  end.

Fixpoint puts_ok (ps : list (env * AVPacket)) (w : world) : bool :=
  match ps with
  | [] => true
  | (e, p) :: ps' =>
      env_ok e w &&
      match avpacket_queue_put e w p with
      | Some (w', _) => puts_ok ps' w'
      | None => true
      end
  end.

Fixpoint get_seq (bs : list Z) (w : world) (p : AVPacket)
  : outcome (world * list (Z * AVPacket)) :=
  match bs with
  | [] => Ret (w, [])
  | b :: bs' =>
      match avpacket_queue_get w p b with
      | Ret (w', p', r) =>
          match get_seq bs' w' p' with
          | Ret (w'', rs) => Ret (w'', (r, p') :: rs)
          | Wait => Wait
          | Fault => Fault
          end
      | Wait => Wait
      | Fault => Fault
      end
  end.

(** The units of the calls whose two allocations succeeded, in call order. *)
Definition enqueued (ps : list (env * AVPacket)) : list AVPacket :=
  omap (λ ep, if put_succeeds ep.1 then Some (stored ep.1 ep.2) else None) ps.

Lemma put_all_rep ps w l :
  queue_rep w l → puts_ok ps w = true →
  ∃ w' l', put_all ps w = Some w' ∧ queue_rep w' (l ++ l') ∧
           l'.*2 = enqueued ps.
Proof.
  revert w l. induction ps as [|[e p] ps IH]; intros w l Hrep Hok.
  - exists w, []. by rewrite app_nil_r.
  - simpl in Hok. apply andb_true_iff in Hok as [He Hok].
    unfold enqueued. simpl. fold (enqueued ps).
    destruct (put_succeeds e) eqn:Hsucc.
    + destruct (put_success_ok e w p l Hrep He Hsucc)
        as (w1 & a & _ & Hput & Hrep1 & _).
      rewrite Hput in Hok |- *.
      destruct (IH w1 _ Hrep1 Hok) as (w' & l' & Hall & Hrep' & Hl').
      exists w', ((a, stored e p) :: l'). split; [done|]. split.
      * by rewrite <- app_assoc in Hrep'.
      * rewrite fmap_cons. simpl snd. by f_equal.
    + destruct (put_failure e w p He Hsucc) as (r & Hput & _).
      rewrite Hput in Hok |- *. by apply IH.
Qed.

Lemma get_seq_rep bs w l p :
  queue_rep w l → length bs = length l →
  ∃ w', get_seq bs w p = Ret (w', (λ k, (1, k)) <$> l.*2) ∧ queue_rep w' [].
Proof.
  revert bs w p. induction l as [|[a k] l IH]; intros bs w p Hrep Hlen.
  - destruct bs; [|done]. by exists w.
  - destruct bs as [|b bs]; [done|]. simpl in Hlen.
    destruct (get_head w l a k p b Hrep) as (w1 & Hget & Hrep1 & _).
    destruct (IH bs w1 k Hrep1) as (w' & Hseq & Hrep'); [lia|].
    exists w'. simpl. by rewrite Hget, Hseq.
Qed.

(** ** The claims about the queue *)

(** C1 (FIFO): after any run of [put] calls on a well-formed queue, made
    with any packets and stream tags, a following run of [get] calls, one
    per queued unit, blocking or not, returns 1 each time and hands out
    first the units that were queued before and then the units of the
    successful [put] calls, in the order of the calls; the queue is then
    empty. *)
Theorem fifo_order ps w0 l0 bs p :
  queue_rep w0 l0 → puts_ok ps w0 = true →
  length bs = length (l0.*2 ++ enqueued ps) →
  ∃ w1 w2,
    put_all ps w0 = Some w1 ∧
    get_seq bs w1 p = Ret (w2, (λ k, (1, k)) <$> (l0.*2 ++ enqueued ps)) ∧
    queue_rep w2 [].
Proof.
  intros Hrep Hok Hlen.
  destruct (put_all_rep ps w0 l0 Hrep Hok) as (w1 & l' & Hall & Hrep1 & Hl').
  destruct (get_seq_rep bs w1 (l0 ++ l') p Hrep1) as (w2 & Hseq & Hrep2).
  { rewrite Hlen, <- Hl', !length_app, !length_fmap. done. }
  exists w1, w2. rewrite <- Hl', <- fmap_app. done.
Qed.

(** C2 (size accounting): after any run of [put] and [get] operations
    from the initialised queue, whose allocations answer free addresses,
    no operation faults, the heap holds a well-formed list [l] of the
    queued units, [size] is the sum of payload size plus node overhead
    over [l] and [nb_packets] is the length of [l]: always modulo the
    width of the field, and exactly whenever the value fits the field. *)
Theorem size_accounting ops :
  ops_ok ops avpacket_queue_init = true →
  ∃ w l,
    apply_ops ops avpacket_queue_init = Some w ∧ queue_rep w l ∧
    avpacket_queue_size w = u64 (total_bytes l.*2) ∧
    nb_packets (queue w) = s32 (Z.of_nat (length l)) ∧
    (0 <= total_bytes l.*2 < 2 ^ 64 →
     avpacket_queue_size w = total_bytes l.*2) ∧
    (Z.of_nat (length l) <= INT_MAX →
     nb_packets (queue w) = Z.of_nat (length l)).
Proof.
  intros Hok.
  destruct (apply_ops_accounted ops avpacket_queue_init [] init_rep) as
    (w & l & Hrun & Hrep & Hn & Hs); [by split | done |].
  exists w, l. unfold avpacket_queue_size.
  split; [done|]. split; [done|]. split; [done|]. split; [done|]. split.
  - intros Hfit. rewrite Hs. by apply u64_small.
  - intros Hfit. rewrite Hn. apply s32_small. lia.
Qed.

(** C3 (put): on a well-formed queue, with an allocator that answers
    [NULL] or a free address, [put] returns 0 exactly when both
    allocations succeed; it then links the unit behind the last node and
    signals the queue's condition variable once.  Otherwise it returns a
    negative code ([AVERROR(ENOMEM)] for the node, the code of
    [av_packet_ref] for the reference) and the queue, the heap and the
    signal count are as before. *)
Theorem put_contract e w p l :
  queue_rep w l → env_ok e w = true →
  if put_succeeds e then
    ∃ w' a, malloc_ret e = Some a ∧
      avpacket_queue_put e w p = Some (w', 0) ∧
      queue_rep w' (l ++ [(a, stored e p)]) ∧
      nb_packets (queue w') = s32 (nb_packets (queue w) + 1) ∧
      q_size (queue w') = u64 (q_size (queue w) + node_bytes (stored e p)) ∧
      q_cond (queue w') = S (q_cond (queue w))
  else
    ∃ r, avpacket_queue_put e w p = Some (w, r) ∧ r < 0 ∧
      (malloc_ret e = None ∧ r = AVERROR ENOMEM ∨
       is_Some (malloc_ret e) ∧ ref_ret e < 0 ∧ r = ref_ret e).
Proof.
  intros Hrep Hok. destruct (put_succeeds e) eqn:Hsucc.
  - destruct (put_success_ok e w p l Hrep Hok Hsucc)
      as (w' & a & Hm & Hput & Hrep' & Hn & Hs & Hc & _).
    by exists w', a.
  - by apply put_failure.
Qed.

(** C4 (get): on a well-formed non-empty queue one turn of [get], blocking
    or not, returns 1 with the head unit, and in that same step unlinks
    and frees the head node, decrements [nb_packets] and subtracts the
    unit's payload size plus [sizeof(AVPacketList)] from [size] (both
    modulo the width of the field); on an empty queue a non-blocking [get]
    returns 0 at once and leaves the state and the caller's packet as
    they were. *)
Theorem get_contract w l p block :
  queue_rep w l →
  match l with
  | (a, k) :: l' =>
      ∃ w', avpacket_queue_get w p block = Ret (w', k, 1) ∧
            queue_rep w' l' ∧
            heap w' !! a = None ∧
            nb_packets (queue w') = s32 (nb_packets (queue w) - 1) ∧
            q_size (queue w') =
              u64 (q_size (queue w) - (pkt_size k + sizeof_AVPacketList))
  | [] => avpacket_queue_get w p 0 = Ret (w, p, 0)
  end.
Proof.
  intros Hrep. destruct l as [|[a k] l'].
  - by rewrite (get_empty w p 0 Hrep).
  - destruct (get_head w l' a k p block Hrep)
      as (w' & Hget & Hrep' & Hh & Hn & Hs & _).
    exists w'. split; [done|]. split; [done|]. split; [|split; [done|]].
    + rewrite Hh. apply lookup_delete_eq.
    + rewrite Hs, node_bytes_size_bytes, u64_sub_r. reflexivity.
Qed.

(** C5 (flush): on a well-formed queue [flush] terminates without a
    fault; afterwards [nb_packets] and [size] are 0, [first_pkt] and
    [last_pkt] are [NULL], every node that was queued is freed and no
    other block is touched, and every queued packet was handed to
    [av_packet_unref] once, in queue order. *)
Theorem flush_empties w l :
  queue_rep w l →
  ∃ w', avpacket_queue_flush w = Some w' ∧
        nb_packets (queue w') = 0 ∧ avpacket_queue_size w' = 0 ∧
        first_pkt (queue w') = None ∧ last_pkt (queue w') = None ∧
        queue_rep w' [] ∧
        (∀ a, a ∈ l.*1 → heap w' !! a = None) ∧
        (∀ a, a ∉ l.*1 → heap w' !! a = heap w !! a) ∧
        unrefd w' = unrefd w ++ l.*2.
Proof.
  intros Hrep. rewrite (flush_rep w l Hrep). eexists. split; [reflexivity|].
  simpl. do 4 (split; [done|]). split; [|split; [|split; [|done]]].
  - split; simpl; [done | constructor | done].
  - intros a Ha. rewrite free_all_lookup. by rewrite bool_decide_eq_true_2.
  - intros a Ha. rewrite free_all_lookup. by rewrite bool_decide_eq_false_2.
Qed.

End Queue.

(** ** The frame packagers and the writer loop *)

Record AVRational := mkAVRational {
  num : Z;
  den : Z
}.

(** An output stream: its index in the container, its time base, and the
    [frame_number] of its codec context. *)
Record AVStream := mkAVStream {
  index : Z;
  time_base : AVRational;
  frame_number : Z
}.

(** Modelled from the spec: [decklink_capture.h] is not among the sources;
    of [DecklinkConf] the audio packager reads the channel count and the
    sample bit depth. *)
Record DecklinkConf := mkDecklinkConf {
  audio_channels : Z;
  audio_sample_depth : Z
}.

(** Which check of the writer loop signalled the coordinator. *)
Inductive signal : Type :=
  | FrameLimit
  | MemoryLimit.

Global Instance signal_eq_dec : EqDecision signal.
Proof. solve_decision. Defined.

(** One line of the periodic diagnostic: the frame number printed, the
    frame's byte count and the queue size read for it. *)
Record diag := mkDiag {
  diag_frame : Z;
  diag_bytes : Z;
  diag_qsize : Z
}.

(** The file-scope variables.  [cond] lists the signals sent on the
    coordinator's condition variable, newest first; [muxed] the packets
    given to [av_interleaved_write_frame], oldest first. *)
Record globals := mkGlobals {
  verbose : Z;
  max_frames : Z;
  frame_count : Z;
  memory_limit : Z;
  video_st : AVStream;
  audio_st : AVStream;
  cond : list signal;
  muxed : list AVPacket;
  stderr_log : list diag
}.

Record state := mkState {
  globs : globals;
  mem : world
}.

Definition initial_globals (v a : AVStream) : globals :=
  mkGlobals 0 (-1) 0 (1024 * 1024 * 1024) v a [] [] [].

Definition set_frame_count (g : globals) (n : Z) : globals :=
  mkGlobals (verbose g) (max_frames g) n (memory_limit g)
            (video_st g) (audio_st g) (cond g) (muxed g) (stderr_log g).

Definition print_diag (g : globals) (d : diag) : globals :=
  mkGlobals (verbose g) (max_frames g) (frame_count g) (memory_limit g)
            (video_st g) (audio_st g) (cond g) (muxed g) (stderr_log g ++ [d]).

Definition next_frame (st : AVStream) : AVStream :=
  mkAVStream (index st) (time_base st) (s32 (frame_number st + 1)).

Definition set_video_st (g : globals) (st : AVStream) : globals :=
  mkGlobals (verbose g) (max_frames g) (frame_count g) (memory_limit g)
            st (audio_st g) (cond g) (muxed g) (stderr_log g).

Definition set_audio_st (g : globals) (st : AVStream) : globals :=
  mkGlobals (verbose g) (max_frames g) (frame_count g) (memory_limit g)
            (video_st g) st (cond g) (muxed g) (stderr_log g).

Definition pthread_cond_signal (g : globals) (s : signal) : globals :=
  mkGlobals (verbose g) (max_frames g) (frame_count g) (memory_limit g)
            (video_st g) (audio_st g) (s :: cond g) (muxed g) (stderr_log g).

Definition av_interleaved_write_frame (g : globals) (p : AVPacket) : globals :=
  mkGlobals (verbose g) (max_frames g) (frame_count g) (memory_limit g)
            (video_st g) (audio_st g) (cond g) (muxed g ++ [p]) (stderr_log g).

(** The writer thread between two steps: about to call (or waiting in)
    [avpacket_queue_get], holding a unit to write, about to read the queue
    size, or returned from [push_packet]. *)
Inductive writer : Type :=
  | AtGet (p : AVPacket)
  | AtWrite (p : AVPacket)
  | AtMemCheck (p : AVPacket)
  | Returned.

Inductive event : Type :=
  | Video (e : env) (frame width height stride timestamp duration flags : Z)
  | Audio (e : env) (ctx : DecklinkConf) (frame nb_samples timestamp flags : Z)
  | Writer.

Section Program.

(** [sizeof(AVPacketList)], and the conversion of an [int64_t] to the type
    of [AVPacket.duration] ([int] up to libavcodec 56, [int64_t] since):
    both fixed by libavcodec's headers. *)
Variable sizeof_AVPacketList : Z.
Variable to_duration : Z → Z.

(** [verbose && frame_count++ % 25 == 0], with the body of the [if]. *)
Definition count_frame (g : globals) (bytes qsize : Z) : globals :=
  if verbose g =? 0 then g
  else
    let g' := set_frame_count g (u64 (frame_count g + 1)) in
    if frame_count g mod 25 =? 0
    then print_diag g' (mkDiag (frame_count g') bytes qsize)
    else g'.

(** [None] is a division without a defined result, or a fault in [put].
    [avpicture_fill] writes the global [picture] only, which nothing here
    reads; the result of [avpacket_queue_put] is dropped. *)
Definition video_callback (e : env) (s : state)
    (frame width height stride timestamp duration flags : Z)
  : option (state * Z) :=
  let p0 := av_init_packet (stack_pkt e) in
  let g1 := count_frame (globs s) (s32 (stride * height))
              (avpacket_queue_size (mem s)) in
  let tb := num (time_base (video_st g1)) in
  match div64 timestamp tb, div64 duration tb with
  | Some t, Some d =>
      let p := mkAVPacket t t (to_duration d)
                 (Z.lor (pkt_flags p0) AV_PKT_FLAG_KEY)
                 (index (video_st g1)) frame (s32 (stride * height)) in
      let g2 := set_video_st g1 (next_frame (video_st g1)) in
      match avpacket_queue_put sizeof_AVPacketList e (mem s) p with
      | Some (w, _) => Some (mkState g2 w, 0)
      | None => None
      end
  | _, _ => None
  end.

Definition audio_callback (e : env) (s : state) (ctx : DecklinkConf)
    (frame nb_samples timestamp flags : Z)
  : option (state * Z) :=
  let p0 := av_init_packet (stack_pkt e) in
  let g := globs s in
  let size := s32 (s32 (nb_samples * audio_channels ctx)
                   * (audio_sample_depth ctx ÷ 8)) in
  match div64 timestamp (num (time_base (audio_st g))) with
  | Some t =>
      let p := mkAVPacket t t (pkt_duration p0)
                 (Z.lor (pkt_flags p0) AV_PKT_FLAG_KEY)
                 (index (audio_st g)) frame size in
      let g2 := set_audio_st g (next_frame (audio_st g)) in
      match avpacket_queue_put sizeof_AVPacketList e (mem s) p with
      | Some (w, _) => Some (mkState g2 w, 0)
      | None => None
      end
  | None => None
  end.

(** [max_frames && frame_count > max_frames]: the [int] is converted to
    [uint64_t] for the comparison. *)
Definition frame_limit_reached (g : globals) : bool :=
  negb (max_frames g =? 0) && (u64 (max_frames g) <? frame_count g).

Definition memory_limit_reached (g : globals) (w : world) : bool :=
  memory_limit g <? avpacket_queue_size w.

(** [push_packet], one step at a time: the call of [avpacket_queue_get]
    with [block = 1]; the write and the frame-count check; the
    memory check. *)
Definition push_packet (s : state) (t : writer) : option (state * writer) :=
  match t with
  | AtGet p =>
      match avpacket_queue_get sizeof_AVPacketList (mem s) p 1 with
      | Ret (w, p', r) =>
          Some (mkState (globs s) w, if r =? 0 then Returned else AtWrite p')
      | Wait => Some (s, AtGet p)
      | Fault => None
      end
  | AtWrite p =>
      let g1 := av_interleaved_write_frame (globs s) p in
      let g2 := if frame_limit_reached g1
                then pthread_cond_signal g1 FrameLimit else g1 in
      Some (mkState g2 (mem s), AtMemCheck p)
  | AtMemCheck p =>
      let g := globs s in
      let g1 := if memory_limit_reached g (mem s)
                then pthread_cond_signal g MemoryLimit else g in
      Some (mkState g1 (mem s), AtGet p)
  | Returned => Some (s, Returned)
  end.

(** The program as its threads take turns: a capture callback runs to its
    end, the writer thread takes one step. *)
Definition step (ev : event) (c : state * writer) : option (state * writer) :=
  let '(s, t) := c in
  match ev with
  | Video e frame width height stride timestamp duration flags =>
      match video_callback e s frame width height stride timestamp duration flags with
      | Some (s', _) => Some (s', t)
      | None => None
      end
  | Audio e ctx frame nb_samples timestamp flags =>
      match audio_callback e s ctx frame nb_samples timestamp flags with
      | Some (s', _) => Some (s', t)
      | None => None
      end
  | Writer => push_packet s t
  end.

Fixpoint run (evs : list event) (c : state * writer) : option (state * writer) :=
  match evs with
  | [] => Some c
  | ev :: evs' =>
      match step ev c with
      | Some c' => run evs' c'
      | None => None
      end
  end.

(** *** What a step leaves alone *)

Lemma put_abort_request e w p w' r :
  avpacket_queue_put sizeof_AVPacketList e w p = Some (w', r) →
  abort_request (queue w') = abort_request (queue w).
Proof.
  unfold avpacket_queue_put. destruct (malloc_ret e) as [a|].
  - change (av_packet_ref e p) with (ref_ret e, stored e p).
    cbv beta iota zeta. destruct (ref_ret e <? 0).
    + by intros [= <- _].
    + destruct (last_pkt (queue w)) as [b|].
      * destruct (_ !! b); [|done]. by intros [= <- _].
      * by intros [= <- _].
  - by intros [= <- _].
Qed.

Lemma get_result w p block w' p' r :
  avpacket_queue_get sizeof_AVPacketList w p block = Ret (w', p', r) →
  abort_request (queue w') = abort_request (queue w) ∧
  (r = 1 ∧ is_Some (first_pkt (queue w)) ∨
   r = 0 ∧ block = 0 ∧ first_pkt (queue w) = None ∧ w' = w ∧ p' = p).
Proof.
  unfold avpacket_queue_get. destruct (first_pkt (queue w)) as [a|].
  - destruct (heap w !! a); [|done]. intros [= <- _ <-].
    split; [done|]. left. split; [done | by eexists].
  - destruct (block =? 0) eqn:Hb; [|done]. intros [= <- <- <-].
    split; [done|]. right. repeat split; try done. lia.
Qed.

Lemma count_frame_fields g bytes qsize :
  let g' := count_frame g bytes qsize in
  verbose g' = verbose g ∧ max_frames g' = max_frames g ∧
  memory_limit g' = memory_limit g ∧
  video_st g' = video_st g ∧ audio_st g' = audio_st g ∧
  cond g' = cond g ∧ muxed g' = muxed g ∧
  frame_count g' =
    if verbose g =? 0 then frame_count g else u64 (frame_count g + 1).
Proof.
  unfold count_frame. destruct (verbose g =? 0); [done|].
  by destruct (frame_count g mod 25 =? 0).
Qed.

(** The capture counter after one video callback: [frame_count++] sits
    behind [verbose &&], so it is taken only when [verbose] is set. *)
Lemma video_callback_frame_count e s frame width height stride
    timestamp duration flags s' r :
  video_callback e s frame width height stride timestamp duration flags
    = Some (s', r) →
  frame_count (globs s') =
    if verbose (globs s) =? 0 then frame_count (globs s)
    else u64 (frame_count (globs s) + 1).
Proof.
  unfold video_callback.
  destruct (count_frame_fields (globs s) (s32 (stride * height))
              (avpacket_queue_size (mem s))) as (_ & _ & _ & _ & _ & _ & _ & Hfc).
  destruct (div64 timestamp _); [|done]. destruct (div64 duration _); [|done].
  destruct (avpacket_queue_put _ _ _ _) as [[w ?]|]; [|done].
  intros [= <- _]. simpl. exact Hfc.
Qed.

(** What every step keeps: the configured limit, the range of the
    counter, the [abort_request] field; and which signals it may add. *)
Record kept (c c' : state * writer) : Prop := {
  kept_max_frames : max_frames (globs c'.1) = max_frames (globs c.1);
  kept_range : 0 <= frame_count (globs c.1) < 2 ^ 64 →
               0 <= frame_count (globs c'.1) < 2 ^ 64;
  kept_abort : abort_request (queue (mem c'.1)) = abort_request (queue (mem c.1));
  kept_cond :
    cond (globs c'.1) = cond (globs c.1) ∨
    cond (globs c'.1) = MemoryLimit :: cond (globs c.1) ∨
    cond (globs c'.1) = FrameLimit :: cond (globs c.1) ∧
      frame_limit_reached (globs c.1) = true;
  kept_running : c.2 ≠ Returned → c'.2 ≠ Returned
}.

Lemma kept_refl c : kept c c.
Proof. split; auto. Qed.

Lemma frame_limit_reached_write g p :
  frame_limit_reached (av_interleaved_write_frame g p) = frame_limit_reached g.
Proof. done. Qed.

Lemma step_kept ev c c' : step ev c = Some c' → kept c c'.
Proof.
  destruct c as [s t]. destruct ev as [e fr wd ht sd ts du fl|e ctx fr ns ts fl|]; simpl.
  - destruct (video_callback _ _ _ _ _ _ _ _ _) as [[s' r]|] eqn:Hv; [|done].
    intros [= <-]. pose proof (video_callback_frame_count _ _ _ _ _ _ _ _ _ _ _ Hv) as Hfc.
    unfold video_callback in Hv.
    destruct (count_frame_fields (globs s) (s32 (sd * ht))
                (avpacket_queue_size (mem s))) as (_ & Hmf & _ & _ & _ & Hc & _ & _).
    destruct (div64 ts _); [|done]. destruct (div64 du _); [|done].
    destruct (avpacket_queue_put _ _ _ _) as [[w ?]|] eqn:Hput; [|done].
    injection Hv as <- _. split; simpl.
    + done.
    + intros Hr. simpl in Hfc. rewrite Hfc.
      destruct (verbose (globs s) =? 0); [done | apply u64_range].
    + by eapply put_abort_request.
    + by left.
    + done.
  - unfold audio_callback.
    destruct (div64 ts _); [|done].
    destruct (avpacket_queue_put _ _ _ _) as [[w ?]|] eqn:Hput; [|done].
    intros [= <-]. split; simpl; try done.
    + by eapply put_abort_request.
    + by left.
  - destruct t as [p|p|p|]; simpl.
    + destruct (avpacket_queue_get _ _ _ _) as [[[w p'] r]| |] eqn:Hget; [| |done].
      * intros [= <-]. apply get_result in Hget as [Ha Hr].
        split; simpl; try done; [by left|].
        intros _. destruct Hr as [[-> _]|(_ & ? & _)]; done.
      * intros [= <-]. apply kept_refl.
    + intros [= <-]. split; simpl; try done.
      * by destruct (frame_limit_reached _).
      * by destruct (frame_limit_reached _).
      * rewrite frame_limit_reached_write.
        destruct (frame_limit_reached (globs s)); [right; right | left]; done.
    + intros [= <-]. split; simpl; try done.
      * by destruct (memory_limit_reached _ _).
      * by destruct (memory_limit_reached _ _).
      * destruct (memory_limit_reached _ _); [right; left | left]; done.
    + intros [= <-]. apply kept_refl.
Qed.

(** *** The claims about the packagers and the writer loop *)


(** With [verbose] set, a video callback adds one to [frame_count],
    modulo [2^64]; this is the counter that [push_packet] compares with
    [max_frames]. *)
Lemma verbose_capture_counts e s frame width height stride
    timestamp duration flags s' r :
  verbose (globs s) ≠ 0 →
  video_callback e s frame width height stride timestamp duration flags
    = Some (s', r) →
  frame_count (globs s') = u64 (frame_count (globs s) + 1) ∧
  frame_limit_reached (globs s') =
    negb (max_frames (globs s') =? 0)
    && (u64 (max_frames (globs s')) <? frame_count (globs s')).
Proof.
  intros Hv Hcb. apply video_callback_frame_count in Hcb.
  destruct (Z.eqb_spec (verbose (globs s)) 0); done.
Qed.

(** The write step of a cycle under [max_frames = 10]. *)
Lemma write_step_signal s p :
  max_frames (globs s) = 10 →
  ∃ s', push_packet s (AtWrite p) = Some (s', AtMemCheck p) ∧
        muxed (globs s') = muxed (globs s) ++ [p] ∧
        cond (globs s') =
          (if 10 <? frame_count (globs s)
           then FrameLimit :: cond (globs s) else cond (globs s)) ∧
        frame_count (globs s') = frame_count (globs s) ∧
        max_frames (globs s') = 10 ∧
        mem s' = mem s.
Proof.
  intros Hmax. simpl. eexists. split; [reflexivity|].
  unfold frame_limit_reached. simpl. rewrite Hmax.
  change (negb (10 =? 0) && (u64 10 <? frame_count (globs s)))
    with (10 <? frame_count (globs s)).
  by destruct (10 <? frame_count (globs s)).
Qed.

Definition is_frame_limit (x : signal) : bool :=
  match x with
  | FrameLimit => true
  | MemoryLimit => false
  end.

(** How often the frame-count check has signalled the coordinator. *)
Definition frame_signals (g : globals) : nat :=
  length (List.filter is_frame_limit (cond g)).

(** The writer thread alone for [n] cycles of three steps each. *)
Fixpoint writer_cycles (n : nat) : list event :=
  match n with
  | O => []
  | S n' => Writer :: Writer :: Writer :: writer_cycles n'
  end.

Lemma run_app evs1 evs2 c :
  run (evs1 ++ evs2) c =
    match run evs1 c with
    | Some c' => run evs2 c'
    | None => None
    end.
Proof.
  revert c. induction evs1 as [|ev evs1 IH]; intros c; simpl; [done|].
  by destruct (step ev c).
Qed.

Lemma writer_cycle s p a k l :
  queue_rep (mem s) ((a, k) :: l) →
  ∃ s', run [Writer; Writer; Writer] (s, AtGet p) = Some (s', AtGet k) ∧
        queue_rep (mem s') l ∧
        muxed (globs s') = muxed (globs s) ++ [k] ∧
        frame_count (globs s') = frame_count (globs s) ∧
        max_frames (globs s') = max_frames (globs s) ∧
        frame_signals (globs s') =
          ((if frame_limit_reached (globs s) then 1 else 0)
           + frame_signals (globs s))%nat.
Proof.
  intros Hrep.
  destruct (get_head sizeof_AVPacketList (mem s) l a k p 1 Hrep)
    as (w & Hget & Hrep' & _).
  simpl. rewrite Hget. simpl. rewrite frame_limit_reached_write.
  eexists. split; [reflexivity|]. simpl. split; [done|].
  unfold frame_signals.
  destruct (frame_limit_reached (globs s));
    destruct (memory_limit_reached _ _); simpl; repeat split.
Qed.

Lemma writer_drains l s p :
  queue_rep (mem s) l →
  ∃ s' p', run (writer_cycles (length l)) (s, AtGet p) = Some (s', AtGet p') ∧
           queue_rep (mem s') [] ∧
           muxed (globs s') = muxed (globs s) ++ l.*2 ∧
           frame_signals (globs s') =
             ((if frame_limit_reached (globs s) then length l else 0)
              + frame_signals (globs s))%nat.
Proof.
  revert s p. induction l as [|[a k] l IH]; intros s p Hrep.
  - exists s, p. simpl. rewrite app_nil_r. split; [done|]. split; [done|].
    split; [done|]. by destruct (frame_limit_reached _).
  - destruct (writer_cycle s p a k l Hrep)
      as (s1 & Hrun1 & Hrep1 & Hm1 & Hfc1 & Hmax1 & Hsig1).
    destruct (IH s1 k Hrep1) as (s' & p' & Hrun & Hrep' & Hm & Hsig).
    exists s', p'. split.
    { change (writer_cycles (length ((a, k) :: l)))
        with ([Writer; Writer; Writer] ++ writer_cycles (length l)).
      by rewrite run_app, Hrun1. }
    split; [done|]. split.
    { rewrite Hm, Hm1, fmap_cons, <- app_assoc. done. }
    rewrite Hsig, Hsig1.
    assert (frame_limit_reached (globs s1) = frame_limit_reached (globs s)) as ->.
    { unfold frame_limit_reached. by rewrite Hfc1, Hmax1. }
    destruct (frame_limit_reached (globs s)); simpl; lia.
Qed.

(** C8 as amended (frame-count signal): with [max_frames = 10] the write
    step of a cycle of the writer loop signals the coordinator's condition
    variable once exactly when [frame_count] is above 10 at that moment,
    and changes neither the counter nor the limit; so a writer that drains
    the queued units while no frame is captured signals once per unit
    written when the counter is above 10, and not at all otherwise. *)
Theorem frame_limit_signal_every_cycle s p l :
  max_frames (globs s) = 10 → queue_rep (mem s) l →
  (∃ s1, push_packet s (AtWrite p) = Some (s1, AtMemCheck p) ∧
         cond (globs s1) =
           (if 10 <? frame_count (globs s)
            then FrameLimit :: cond (globs s) else cond (globs s)) ∧
         frame_count (globs s1) = frame_count (globs s) ∧
         max_frames (globs s1) = 10) ∧
  (∃ s' p', run (writer_cycles (length l)) (s, AtGet p) = Some (s', AtGet p') ∧
            muxed (globs s') = muxed (globs s) ++ l.*2 ∧
            frame_signals (globs s') =
              ((if (10 <? frame_count (globs s))%Z then length l else 0)
               + frame_signals (globs s))%nat).
Proof.
  intros Hmax Hrep. split.
  - destruct (write_step_signal s p Hmax) as (s1 & H1 & _ & H2 & H3 & H4 & _).
    by exists s1.
  - destruct (writer_drains l s p Hrep) as (s' & p' & Hrun & _ & Hm & Hsig).
    exists s', p'. split; [done|]. split; [done|]. rewrite Hsig.
    unfold frame_limit_reached. rewrite Hmax.
    by change (negb (10 =? 0) && (u64 10 <? frame_count (globs s)))
      with (10 <? frame_count (globs s)).
Qed.

Lemma default_limit_not_reached g :
  max_frames g = -1 → 0 <= frame_count g < 2 ^ 64 →
  frame_limit_reached g = false.
Proof.
  intros Hmax Hr. unfold frame_limit_reached. rewrite Hmax.
  change (u64 (-1)) with (2 ^ 64 - 1). simpl negb.
  simpl andb. apply Z.ltb_ge. lia.
Qed.

Lemma run_default_limit evs c c' :
  max_frames (globs c.1) = -1 → 0 <= frame_count (globs c.1) < 2 ^ 64 →
  run evs c = Some c' →
  max_frames (globs c'.1) = -1 ∧ 0 <= frame_count (globs c'.1) < 2 ^ 64 ∧
  (FrameLimit ∈ cond (globs c'.1) → FrameLimit ∈ cond (globs c.1)).
Proof.
  revert c. induction evs as [|ev evs IH]; intros c Hmax Hr; simpl.
  - by intros [= <-].
  - destruct (step ev c) as [c1|] eqn:Hstep; [|done].
    intros Hrun. apply step_kept in Hstep as [H1 H2 _ H4 _].
    destruct (IH c1) as (K1 & K2 & K3); [congruence | auto | done |].
    split; [done|]. split; [done|]. intros Hin. apply K3 in Hin.
    destruct H4 as [H|[H|[H Hf]]].
    + by rewrite H in Hin.
    + rewrite H in Hin. by apply elem_of_cons in Hin as [?|?].
    + by rewrite default_limit_not_reached in Hf.
Qed.

Lemma run_running evs c c' :
  run evs c = Some c' →
  (c.2 ≠ Returned → c'.2 ≠ Returned) ∧
  abort_request (queue (mem c'.1)) = abort_request (queue (mem c.1)).
Proof.
  revert c. induction evs as [|ev evs IH]; intros c; simpl.
  - by intros [= <-].
  - destruct (step ev c) as [c1|] eqn:Hstep; [|done].
    intros Hrun. apply step_kept in Hstep as [_ _ H3 _ H5].
    destruct (IH c1 Hrun) as [K1 K2]. split; [auto | congruence].
Qed.

(** C9 as amended (no closed result): a turn of [avpacket_queue_get] with
    [block] set returns only with result 1 and a unit, from a non-empty
    queue; on an empty queue it waits, whatever [abort_request] holds; no
    step of the program changes [abort_request]; and however the threads
    take turns, a writer loop that has not returned does not return. *)
Theorem blocking_get_never_closes :
  (∀ w p block w' p' r,
     block ≠ 0 →
     avpacket_queue_get sizeof_AVPacketList w p block = Ret (w', p', r) →
     r = 1 ∧ is_Some (first_pkt (queue w))) ∧
  (∀ w p block,
     block ≠ 0 → first_pkt (queue w) = None →
     avpacket_queue_get sizeof_AVPacketList w p block = Wait) ∧
  (∀ evs s t s' t',
     t ≠ Returned → run evs (s, t) = Some (s', t') →
     t' ≠ Returned ∧
     abort_request (queue (mem s')) = abort_request (queue (mem s))).
Proof.
  split; [|split].
  - intros w p block w' p' r Hb Hget.
    apply get_result in Hget as [_ [H|(_ & H & _)]]; done.
  - intros w p block Hb Hf. unfold avpacket_queue_get. rewrite Hf.
    by destruct (Z.eqb_spec block 0).
  - intros evs s t s' t' Ht Hrun.
    apply run_running in Hrun as [H1 H2]. split; [by apply H1 | done].
Qed.

(** C10 (default limit): with [max_frames = -1] the comparison of the
    writer loop is false for every value of the 64-bit counter, the [-1]
    being converted to [2^64 - 1]; and however the threads take turns from
    such a state, no frame-limit signal is added to those already sent. *)
Theorem default_max_frames_never_signals :
  (∀ g, max_frames g = -1 → 0 <= frame_count g < 2 ^ 64 →
        u64 (max_frames g) = 2 ^ 64 - 1 ∧ frame_limit_reached g = false) ∧
  (∀ evs s t s' t',
     max_frames (globs s) = -1 → 0 <= frame_count (globs s) < 2 ^ 64 →
     run evs (s, t) = Some (s', t') →
     FrameLimit ∈ cond (globs s') → FrameLimit ∈ cond (globs s)).
Proof.
  split.
  - intros g Hmax Hr. split; [by rewrite Hmax | by apply default_limit_not_reached].
  - intros evs s t s' t' Hmax Hr Hrun.
    by destruct (run_default_limit evs (s, t) (s', t') Hmax Hr Hrun) as (_ & _ & H).
Qed.

End Program.

(** ** Concrete runs *)

Module Sample.

(** A node of 88 bytes, and [int duration] as in libavcodec 55. *)
Definition sizeof_node : Z := 88.
Definition int_duration : Z → Z := s32.

Definition video : AVStream := mkAVStream 0 (mkAVRational 1 25) 0.
Definition audio : AVStream := mkAVStream 1 (mkAVRational 1 48000) 0.

Definition vpkt : AVPacket := mkAVPacket 40 40 1 1 0 4096 1000.
Definition apkt : AVPacket := mkAVPacket 41 41 0 1 1 8192 64.

Definition alloc (a : addr) (data : Z) : env :=
  mkEnv (Some a) 0 data blank_pkt.
Definition no_memory : env := mkEnv None 0 0 blank_pkt.
Definition no_reference (a : addr) : env :=
  mkEnv (Some a) (AVERROR ENOMEM) 0 blank_pkt.

(** Two units queued: a video unit at address 5, an audio unit at 7. *)
Definition two_units : world :=
  mkWorld (mkAVPacketQueue (Some 5%positive) (Some 7%positive) 2 1240 0 2%nat)
          (<[7%positive := mkAVPacketList apkt None]>
             {[5%positive := mkAVPacketList vpkt (Some 7%positive)]})
          [].

Lemma two_units_rep :
  queue_rep two_units [(5%positive, vpkt); (7%positive, apkt)].
Proof.
  split.
  - simpl. split; [done|]. exists (Some 7%positive). split; [done|].
    split; [done|]. by exists None.
  - simpl. apply NoDup_cons. split; [|apply NoDup_singleton].
    by intros ?%list_elem_of_singleton.
  - done.
Qed.

(** The program as [main] starts it, and with [-v -n 10]. *)
Definition started : state :=
  mkState (initial_globals video audio) avpacket_queue_init.

Definition limited : state :=
  mkState (mkGlobals 1 10 0 (1024 * 1024 * 1024) video audio [] [] [])
          avpacket_queue_init.

(** Frame [n] is captured and then written before the next arrives. *)
Definition capture (n : nat) : event :=
  Video (alloc (Pos.of_nat (S n)) (Z.of_nat n)) 7 4 2 8
        (1000 * Z.of_nat n) 1000 0.

Definition capture_and_write (n : nat) : list event :=
  [capture n; Writer; Writer; Writer].

Definition alternate (n : nat) : list event :=
  flat_map capture_and_write (seq 0 n).

End Sample.

Import Sample.

Lemma fifo_order_witness :
  ∃ w1 w2,
    put_all sizeof_node
      [(alloc 5 100, vpkt); (no_memory, apkt); (alloc 7 200, apkt);
       (no_reference 9, vpkt)]
      avpacket_queue_init = Some w1 ∧
    get_seq sizeof_node [1; 0] w1 blank_pkt =
      Ret (w2, [(1, stored (alloc 5 100) vpkt); (1, stored (alloc 7 200) apkt)]) ∧
    queue_rep w2 [].
Proof.
  apply (fifo_order sizeof_node
           [(alloc 5 100, vpkt); (no_memory, apkt); (alloc 7 200, apkt);
            (no_reference 9, vpkt)]
           avpacket_queue_init [] [1; 0] blank_pkt).
  - apply init_rep.
  - vm_compute. reflexivity.
  - reflexivity.
Defined.

Lemma size_accounting_witness :
  ∃ w l,
    apply_ops sizeof_node
      [Put (alloc 5 100) vpkt; Put (alloc 7 200) apkt; Get blank_pkt 0;
       Put no_memory vpkt; Put (alloc 5 300) apkt]
      avpacket_queue_init = Some w ∧
    queue_rep w l ∧
    avpacket_queue_size w = u64 (total_bytes sizeof_node l.*2) ∧
    nb_packets (queue w) = s32 (Z.of_nat (length l)) ∧
    (0 <= total_bytes sizeof_node l.*2 < 2 ^ 64 →
     avpacket_queue_size w = total_bytes sizeof_node l.*2) ∧
    (Z.of_nat (length l) <= INT_MAX →
     nb_packets (queue w) = Z.of_nat (length l)).
Proof.
  apply (size_accounting sizeof_node).
  vm_compute. reflexivity.
Defined.

Lemma put_contract_witness :
  (∃ w' a, malloc_ret (alloc 9 300) = Some a ∧
     avpacket_queue_put sizeof_node (alloc 9 300) two_units vpkt = Some (w', 0) ∧
     queue_rep w' ([(5%positive, vpkt); (7%positive, apkt)]
                     ++ [(a, stored (alloc 9 300) vpkt)]) ∧
     nb_packets (queue w') = s32 (nb_packets (queue two_units) + 1) ∧
     q_size (queue w') =
       u64 (q_size (queue two_units)
            + node_bytes sizeof_node (stored (alloc 9 300) vpkt)) ∧
     q_cond (queue w') = S (q_cond (queue two_units))) ∧
  (∃ r, avpacket_queue_put sizeof_node (no_reference 9) two_units vpkt
          = Some (two_units, r) ∧ r < 0 ∧
     (malloc_ret (no_reference 9) = None ∧ r = AVERROR ENOMEM ∨
      is_Some (malloc_ret (no_reference 9)) ∧ ref_ret (no_reference 9) < 0 ∧
      r = ref_ret (no_reference 9))).
Proof.
  split.
  - apply (put_contract sizeof_node (alloc 9 300) two_units vpkt _ two_units_rep).
    reflexivity.
  - apply (put_contract sizeof_node (no_reference 9) two_units vpkt _ two_units_rep).
    reflexivity.
Defined.

Lemma get_contract_witness :
  ∃ w', avpacket_queue_get sizeof_node two_units blank_pkt 1 = Ret (w', vpkt, 1) ∧
        queue_rep w' [(7%positive, apkt)] ∧
        heap w' !! 5%positive = None ∧
        nb_packets (queue w') = 1 ∧
        q_size (queue w') = 1240 - (1000 + 88).
Proof.
  exact (get_contract sizeof_node two_units _ blank_pkt 1 two_units_rep).
Defined.

Lemma flush_empties_witness :
  ∃ w', avpacket_queue_flush two_units = Some w' ∧
        nb_packets (queue w') = 0 ∧ avpacket_queue_size w' = 0 ∧
        first_pkt (queue w') = None ∧ last_pkt (queue w') = None ∧
        queue_rep w' [] ∧
        (∀ a, a ∈ [5%positive; 7%positive] → heap w' !! a = None) ∧
        (∀ a, a ∉ [5%positive; 7%positive] → heap w' !! a = heap two_units !! a) ∧
        unrefd w' = unrefd two_units ++ [vpkt; apkt].
Proof.
  exact (flush_empties two_units _ two_units_rep).
Defined.

(** A video stream in NTSC time base, with two units already queued. *)
Definition ntsc_state : state :=
  mkState (initial_globals (mkAVStream 0 (mkAVRational 1001 30000) 0) audio)
          two_units.


(** C7 (capture counter) on the code: started without [-v], three video
    callbacks queue three units and [frame_count] is still 0. *)
Theorem quiet_capture_keeps_frame_count :
  ∃ s' t,
    run sizeof_node int_duration [capture 0; capture 1; capture 2]
      (started, AtGet blank_pkt) = Some (s', t) ∧
    verbose (globs started) = 0 ∧
    nb_packets (queue (mem s')) = 3 ∧
    frame_number (video_st (globs s')) = 3 ∧
    frame_count (globs s') = 0.
Proof.
  eexists _, _. split; [vm_compute; reflexivity|]. by vm_compute.
Qed.

(** C8 as stated fails: with [max_frames = 10] and every frame written
    before the next is captured, thirteen write cycles signal the
    coordinator three times, after the 11th, the 12th and the 13th write. *)
Lemma frame_limit_signalled_again :
  ∃ s t,
    run sizeof_node int_duration (alternate 13) (limited, AtGet blank_pkt)
      = Some (s, t) ∧
    max_frames (globs s) = 10 ∧
    length (muxed (globs s)) = 13%nat ∧
    cond (globs s) = [FrameLimit; FrameLimit; FrameLimit] ∧
    length (cond (globs s)) ≠ 1%nat.
Proof.
  eexists _, _. split; [vm_compute; reflexivity|]. by vm_compute.
Qed.

Definition over_limit : state :=
  mkState (mkGlobals 1 10 11 (1024 * 1024 * 1024) video audio [FrameLimit] [] [])
          two_units.

Lemma frame_limit_signal_every_cycle_witness :
  (∃ s1, push_packet sizeof_node over_limit (AtWrite vpkt)
           = Some (s1, AtMemCheck vpkt) ∧
         cond (globs s1) =
           (if 10 <? frame_count (globs over_limit)
            then FrameLimit :: cond (globs over_limit)
            else cond (globs over_limit)) ∧
         frame_count (globs s1) = frame_count (globs over_limit) ∧
         max_frames (globs s1) = 10) ∧
  (∃ s' p', run sizeof_node int_duration (writer_cycles 2)
              (over_limit, AtGet blank_pkt) = Some (s', AtGet p') ∧
            muxed (globs s') = muxed (globs over_limit) ++ [vpkt; apkt] ∧
            frame_signals (globs s') =
              ((if (10 <? frame_count (globs over_limit))%Z then 2 else 0)
               + frame_signals (globs over_limit))%nat).
Proof.
  apply (frame_limit_signal_every_cycle sizeof_node int_duration over_limit
           vpkt [(5%positive, vpkt); (7%positive, apkt)]).
  - reflexivity.
  - apply two_units_rep.
Defined.

(** The queue after the teardown's flush, and the same with
    [abort_request] set as a close request would set it. *)
Definition flushed : world :=
  mkWorld (mkAVPacketQueue None None 0 0 0 2%nat) ∅ [vpkt; apkt].

Definition flushed_and_closed : world :=
  mkWorld (mkAVPacketQueue None None 0 0 1 2%nat) ∅ [vpkt; apkt].

(** C9 as stated fails: after the flush a blocking [get] does not return
    a closed result, it waits, also with [abort_request] set; and the
    writer loop, given twenty turns, is still in that call. *)
Lemma blocking_get_after_flush_waits :
  avpacket_queue_flush two_units = Some flushed ∧
  avpacket_queue_get sizeof_node flushed blank_pkt 1 = Wait ∧
  avpacket_queue_get sizeof_node flushed_and_closed blank_pkt 1 = Wait ∧
  run sizeof_node int_duration (replicate 20 Writer)
    (mkState (initial_globals video audio) flushed_and_closed, AtGet blank_pkt)
  = Some (mkState (initial_globals video audio) flushed_and_closed,
          AtGet blank_pkt).
Proof.
  split; [by vm_compute|]. split; [done|]. split; [done|]. by vm_compute.
Qed.

Lemma blocking_get_never_closes_witness :
  avpacket_queue_get sizeof_node flushed_and_closed blank_pkt 1 = Wait ∧
  match run sizeof_node int_duration (alternate 3) (started, AtGet blank_pkt) with
  | Some (s', t') =>
      t' ≠ Returned ∧
      abort_request (queue (mem s')) = abort_request (queue (mem started))
  | None => False
  end.
Proof.
  destruct (blocking_get_never_closes sizeof_node int_duration) as (_ & Hwait & Hrun).
  split.
  - apply Hwait; [lia | reflexivity].
  - destruct (run sizeof_node int_duration (alternate 3) (started, AtGet blank_pkt))
      as [[s' t']|] eqn:Hr.
    + apply (Hrun (alternate 3) started (AtGet blank_pkt) s' t'); [discriminate | exact Hr].
    + vm_compute in Hr. discriminate Hr.
Defined.

Definition counter_at_max : globals :=
  mkGlobals 1 (-1) (2 ^ 64 - 1) (1024 * 1024 * 1024) video audio [] [] [].

Definition counter_state : state := mkState counter_at_max avpacket_queue_init.

Lemma default_max_frames_never_signals_witness :
  (u64 (max_frames counter_at_max) = 2 ^ 64 - 1 ∧
   frame_limit_reached counter_at_max = false) ∧
  match run sizeof_node int_duration (alternate 3)
          (counter_state, AtGet blank_pkt) with
  | Some (s', _) =>
      FrameLimit ∈ cond (globs s') → FrameLimit ∈ cond (globs counter_state)
  | None => False
  end.
Proof.
  destruct (default_max_frames_never_signals sizeof_node int_duration) as (Hcmp & Hrun).
  split.
  - apply Hcmp; [reflexivity | simpl; lia].
  - destruct (run sizeof_node int_duration (alternate 3)
                (counter_state, AtGet blank_pkt))
      as [[s' t']|] eqn:Hr.
    + apply (Hrun (alternate 3) counter_state (AtGet blank_pkt) s' t');
        [reflexivity | simpl; lia | exact Hr].
    + vm_compute in Hr. discriminate Hr.
Defined.

(** ** More about the queue: what the heap holds, and handing over *)

Section QueueHeap.

Variable sizeof_AVPacketList : Z.

(** The heap holds the queued nodes and nothing else. *)
Definition tight (w : world) (l : list (addr * AVPacket)) : Prop :=
  ∀ a, is_Some (heap w !! a) ↔ a ∈ l.*1.

Lemma put_heap e w p w' r :
  env_ok e w = true →
  avpacket_queue_put sizeof_AVPacketList e w p = Some (w', r) →
  unrefd w' = unrefd w ∧
  ∀ x, is_Some (heap w' !! x) ↔
       is_Some (heap w !! x) ∨ r = 0 ∧ malloc_ret e = Some x.
Proof.
  unfold env_ok, avpacket_queue_put. destruct (malloc_ret e) as [a|].
  - destruct (heap w !! a) eqn:Hfree; [done|]. intros _.
    change (av_packet_ref e p) with (ref_ret e, stored e p).
    cbv beta iota zeta. destruct (ref_ret e <? 0) eqn:Hneg.
    + intros [= <- <-]. simpl. unfold av_free, av_malloc.
      rewrite delete_insert_id by done. split; [done|].
      intros x. split; [by left|]. intros [?|[? _]]; [done | lia].
    + unfold av_malloc. rewrite insert_insert_eq.
      destruct (last_pkt (queue w)) as [b|].
      * destruct (_ !! b) as [n|] eqn:Hb; [|done]. intros [= <- <-]. simpl.
        split; [done|]. intros x.
        rewrite !lookup_insert_is_Some. split.
        -- intros [<-|[_ [<-|[_ H]]]].
           ++ apply mk_is_Some in Hb. apply lookup_insert_is_Some in Hb.
              destruct Hb as [<-|[_ H]]; [right | left]; done.
           ++ by right.
           ++ by left.
        -- intros [H|[_ Heq]]; [|injection Heq as <-].
           ++ destruct (decide (b = x)); [by left | right]. split; [done|].
              destruct (decide (a = x)); [by left | by right].
           ++ destruct (decide (b = a)); [by left | right]. split; [done|]. by left.
      * intros [= <- <-]. simpl. split; [done|]. intros x.
        rewrite lookup_insert_is_Some. split.
        -- intros [<-|[_ H]]; [by right | by left].
        -- intros [H|[_ Heq]]; [|injection Heq as <-].
           ++ destruct (decide (a = x)); [by left | by right].
           ++ by left.
  - intros _ [= <- <-]. split; [done|]. intros x. split; [by left|].
    intros [?|[_ ?]]; done.
Qed.

Lemma apply_op_tight o w l :
  queue_rep w l → tight w l → op_ok o w = true →
  ∃ w' l', apply_op sizeof_AVPacketList o w = Some w' ∧
           queue_rep w' l' ∧ tight w' l' ∧ unrefd w' = unrefd w.
Proof.
  intros Hrep Ht Hok. destruct o as [e p|p block]; simpl in *.
  - destruct (put_succeeds e) eqn:Hsucc.
    + destruct (put_success_ok sizeof_AVPacketList e w p l Hrep Hok Hsucc)
        as (w' & a & Hm & Hput & Hrep' & _).
      destruct (put_heap e w p w' 0 Hok Hput) as [Hu Hh].
      exists w', (l ++ [(a, stored e p)]). rewrite Hput. simpl.
      split; [done|]. split; [done|]. split; [|done].
      intros x. rewrite Hh, (Ht x), fmap_app, elem_of_app. simpl.
      rewrite list_elem_of_singleton, Hm. split.
      * intros [?|[_ Heq]]; [by left | injection Heq as <-; by right].
      * intros [?| ->]; [by left | by right].
    + destruct (put_failure sizeof_AVPacketList e w p Hok Hsucc) as (r & Hput & _).
      exists w, l. rewrite Hput. by simpl.
  - destruct l as [|[a k] l].
    + rewrite (get_empty sizeof_AVPacketList w p block Hrep). exists w, [].
      by destruct (block =? 0).
    + destruct (get_head sizeof_AVPacketList w l a k p block Hrep)
        as (w' & Hget & Hrep' & Hh & _ & _ & _ & _ & Hu).
      exists w', l. rewrite Hget. split; [done|]. split; [done|]. split; [|done].
      destruct Hrep as [_ Hnd _]. rewrite fmap_cons in Hnd.
      apply NoDup_cons in Hnd as [Hal _].
      intros x. rewrite Hh. unfold av_free. rewrite lookup_delete_is_Some, (Ht x).
      rewrite fmap_cons, elem_of_cons. simpl. split.
      * intros [Hne [?|?]]; [congruence | done].
      * intros Hx. split; [by intros -> | by right].
Qed.

Lemma apply_ops_tight ops w l :
  queue_rep w l → tight w l → ops_ok sizeof_AVPacketList ops w = true →
  ∃ w' l', apply_ops sizeof_AVPacketList ops w = Some w' ∧
           queue_rep w' l' ∧ tight w' l' ∧ unrefd w' = unrefd w.
Proof.
  revert w l. induction ops as [|o ops IH]; intros w l Hrep Ht Hok.
  - by exists w, l.
  - simpl in Hok. apply andb_true_iff in Hok as [Ho Hok].
    destruct (apply_op_tight o w l Hrep Ht Ho) as (w1 & l1 & Ha & Hr1 & Ht1 & Hu1).
    simpl. rewrite Ha in Hok |- *.
    destruct (IH w1 l1 Hr1 Ht1 Hok) as (w' & l' & ? & ? & ? & Hu).
    exists w', l'. split; [done|]. split; [done|]. split; [done|]. congruence.
Qed.

(** X1: No node is leaked: after any run of [put] and [get] from the initialised
    queue the heap holds exactly the nodes of the queued units, failed
    [put] calls having freed what they allocated; and [avpacket_queue_end]
    then leaves an empty heap, having handed exactly the queued packets to
    [av_packet_unref], each once and in queue order. *)
Theorem no_node_leaked ops :
  ops_ok sizeof_AVPacketList ops avpacket_queue_init = true →
  ∃ w l w',
    apply_ops sizeof_AVPacketList ops avpacket_queue_init = Some w ∧
    queue_rep w l ∧
    (∀ a, is_Some (heap w !! a) ↔ a ∈ l.*1) ∧
    size (heap w) = length l ∧
    avpacket_queue_end w = Some w' ∧
    heap w' = ∅ ∧
    unrefd w' = l.*2.
Proof.
  intros Hok.
  destruct (apply_ops_tight ops avpacket_queue_init [] init_rep) as
    (w & l & Hrun & Hrep & Ht & Hu); [|done|].
  { intros a. simpl. rewrite lookup_empty. split; [by intros [? ?] | by intros ?%elem_of_nil]. }
  exists w, l. eexists. split; [done|]. split; [done|]. split; [done|].
  unfold avpacket_queue_end. rewrite (flush_rep w l Hrep). split; [|split; [reflexivity|]].
  - destruct Hrep as [Hc Hnd _].
    apply Nat.le_antisymm; [|by eapply chain_size].
    rewrite <- (length_fmap fst l).
    rewrite <- (size_list_to_set (C:=gset addr) l.*1) by done.
    rewrite <- size_dom. apply subseteq_size.
    intros a Ha. apply elem_of_list_to_set, Ht. by apply elem_of_dom.
  - simpl. split.
    + apply map_eq. intros a. rewrite free_all_lookup, lookup_empty.
      case_bool_decide as Ha; [done|].
      destruct (heap w !! a) eqn:Hl; [|done].
      exfalso. apply Ha, Ht. by eexists.
    + rewrite Hu. done.
Qed.

(** The queue after one more signal on its condition variable. *)
Definition signalled (w : world) : world :=
  let q := queue w in
  mkWorld (mkAVPacketQueue (first_pkt q) (last_pkt q) (nb_packets q) (q_size q)
             (abort_request q) (S (q_cond q)))
          (heap w) (unrefd w).

(** X2: Handing over through an empty queue: a [get] finds nothing (it waits
    if [block] is set, returns 0 if not); after one successful [put] the
    next turn of [get] returns 1 with exactly the unit stored, and the
    queue, its counters and the heap are as they were before the [put],
    but for the one signal sent. *)
Theorem empty_queue_handoff e w p p0 block :
  queue_rep w [] → accounted sizeof_AVPacketList w [] →
  env_ok e w = true → put_succeeds e = true →
  avpacket_queue_get sizeof_AVPacketList w p0 block
    = (if block =? 0 then Ret (w, p0, 0) else Wait) ∧
  ∃ w1, avpacket_queue_put sizeof_AVPacketList e w p = Some (w1, 0) ∧
        avpacket_queue_get sizeof_AVPacketList w1 p0 block
          = Ret (signalled w, stored e p, 1).
Proof.
  intros Hrep [Hn Hs] Hok Hsucc.
  split; [by apply get_empty|].
  destruct Hrep as [Hc _ Hl]. simpl in Hc, Hl, Hn, Hs.
  unfold env_ok, put_succeeds in *.
  destruct (malloc_ret e) as [a|] eqn:Hm; [|done].
  destruct (heap w !! a) eqn:Hfree; [done|].
  unfold avpacket_queue_put. rewrite Hm.
  change (av_packet_ref e p) with (ref_ret e, stored e p).
  cbv beta iota zeta.
  destruct (ref_ret e <? 0) eqn:Hneg; [lia|].
  rewrite Hl. eexists. split; [reflexivity|].
  unfold avpacket_queue_get. simpl.
  unfold av_malloc. rewrite insert_insert_eq, lookup_insert_eq. simpl.
  unfold av_free. rewrite delete_insert_id by done.
  unfold signalled. rewrite Hc, Hl, Hn, Hs.
  rewrite u64_sub_l.
  replace (u64 0 + node_bytes sizeof_AVPacketList (stored e p)
           - node_bytes sizeof_AVPacketList (stored e p)) with 0
    by (change (u64 0) with 0; lia).
  reflexivity.
Qed.

End QueueHeap.

(** ** More about the pipeline: callbacks and writer under any schedule *)

Definition event_env (ev : event) : option env :=
  match ev with
  | Video e _ _ _ _ _ _ _ => Some e
  | Audio e _ _ _ _ _ => Some e
  | Writer => None
  end.

Definition is_video (ev : event) : bool :=
  match ev with
  | Video _ _ _ _ _ _ _ _ => true
  | _ => false
  end.

Definition is_audio (ev : event) : bool :=
  match ev with
  | Audio _ _ _ _ _ _ => true
  | _ => false
  end.

(** The callback of this event queues a unit: both allocations succeed. *)
Definition enqueues (ev : event) : bool :=
  match event_env ev with
  | Some e => put_succeeds e
  | None => false
  end.

(** The unit the writer thread holds between its [get] and its write. *)
Definition pending (t : writer) : list AVPacket :=
  match t with
  | AtWrite p => [p]
  | _ => []
  end.

(** A time base whose numerator divides every [int64_t]. *)
Definition sound_time_base (st : AVStream) : Prop :=
  num (time_base st) ≠ 0 ∧ num (time_base st) ≠ -1.

Definition is_memory_limit (x : signal) : bool :=
  match x with
  | MemoryLimit => true
  | FrameLimit => false
  end.

(** How often the memory check has signalled the coordinator. *)
Definition memory_signals (g : globals) : nat :=
  length (List.filter is_memory_limit (cond g)).

Section Pipeline.

Variable sizeof_AVPacketList : Z.
Variable to_duration : Z → Z.

Definition event_ok (ev : event) (s : state) : bool :=
  match event_env ev with
  | Some e => env_ok e (mem s)
  | None => true
  end.

(** Every allocation along the schedule answers a free address. *)
Fixpoint events_ok (evs : list event) (c : state * writer) : bool :=
  match evs with
  | [] => true
  | ev :: evs' =>
      event_ok ev c.1 &&
      match step sizeof_AVPacketList to_duration ev c with
      | Some c' => events_ok evs' c'
      | None => true
      end
  end.

Lemma div64_sound st x :
  sound_time_base st → div64 x (num (time_base st)) = Some (x ÷ num (time_base st)).
Proof.
  intros [H0 H1]. unfold div64.
  destruct (Z.eqb_spec (num (time_base st)) 0) as [|_]; [done|].
  destruct (Z.eqb_spec (num (time_base st)) (-1)) as [|_]; [done|].
  by rewrite andb_false_r.
Qed.

Lemma put_step e w p l :
  queue_rep w l → accounted sizeof_AVPacketList w l → env_ok e w = true →
  ∃ w' r l',
    avpacket_queue_put sizeof_AVPacketList e w p = Some (w', r) ∧
    queue_rep w' l' ∧ accounted sizeof_AVPacketList w' l' ∧
    l'.*2 = l.*2 ++ (if put_succeeds e then [stored e p] else []) ∧
    (put_succeeds e = false → w' = w).
Proof.
  intros Hrep [Hn Hs] Hok. destruct (put_succeeds e) eqn:Hsucc.
  - destruct (put_success_ok sizeof_AVPacketList e w p l Hrep Hok Hsucc)
      as (w' & a & _ & Hput & Hrep' & Hn' & Hs' & _).
    exists w', 0, (l ++ [(a, stored e p)]).
    split; [done|]. split; [done|]. split; [split|].
    + rewrite Hn', Hn, s32_add_l, length_app. simpl. f_equal. lia.
    + rewrite Hs', Hs, node_bytes_size_bytes, u64_add_l, u64_add_r.
      rewrite fmap_app, total_bytes_app.
      change (total_bytes sizeof_AVPacketList [(a, stored e p)].*2)
        with (size_bytes sizeof_AVPacketList (stored e p) + 0).
      f_equal. lia.
    + by rewrite fmap_app.
  - destruct (put_failure sizeof_AVPacketList e w p Hok Hsucc) as (r & Hput & _).
    exists w, r, l. rewrite app_nil_r.
    split; [done|]. split; [done|]. split; [by split|]. by split.
Qed.

Lemma get_step w a k l p block :
  queue_rep w ((a, k) :: l) → accounted sizeof_AVPacketList w ((a, k) :: l) →
  ∃ w', avpacket_queue_get sizeof_AVPacketList w p block = Ret (w', k, 1) ∧
        queue_rep w' l ∧ accounted sizeof_AVPacketList w' l.
Proof.
  intros Hrep [Hn Hs].
  destruct (get_head sizeof_AVPacketList w l a k p block Hrep)
    as (w' & Hget & Hrep' & _ & Hn' & Hs' & _).
  exists w'. split; [done|]. split; [done|]. split.
  - rewrite Hn', Hn. simpl length.
    replace (s32 (Z.of_nat (S (length l))) - 1)
      with (s32 (Z.of_nat (S (length l))) + -1) by lia.
    rewrite s32_add_l. f_equal. lia.
  - rewrite Hs', Hs, node_bytes_size_bytes, u64_sub_l, u64_sub_r.
    change (total_bytes sizeof_AVPacketList ((a, k) :: l).*2)
      with (size_bytes sizeof_AVPacketList k + total_bytes sizeof_AVPacketList l.*2).
    f_equal. lia.
Qed.

(** What holds between steps: the queue is well formed, its counters
    agree with it, and both time bases are sound. *)
Record pipeline_inv (c : state * writer) (l : list (addr * AVPacket)) : Prop := {
  inv_rep : queue_rep (mem c.1) l;
  inv_acc : accounted sizeof_AVPacketList (mem c.1) l;
  inv_video : sound_time_base (video_st (globs c.1));
  inv_audio : sound_time_base (audio_st (globs c.1))
}.

(** The units in the pipeline, oldest first: written, held by the writer,
    queued. *)
Definition flow (c : state * writer) (l : list (addr * AVPacket)) : list AVPacket :=
  muxed (globs c.1) ++ pending c.2 ++ l.*2.

Lemma step_pipeline ev c l :
  pipeline_inv c l → event_ok ev c.1 = true →
  ∃ c' l' new,
    step sizeof_AVPacketList to_duration ev c = Some c' ∧
    pipeline_inv c' l' ∧
    flow c' l' = flow c l ++ new ∧
    length new = (if enqueues ev then 1 else 0)%nat.
Proof.
  destruct c as [s t]. intros [Hrep Hacc Hvid Haud] Hok.
  cbn [fst snd] in *.
  destruct ev as [e fr wd ht sd ts du fl|e ctx fr ns ts fl|].
  - change (env_ok e (mem s) = true) in Hok.
    change (enqueues (Video e fr wd ht sd ts du fl)) with (put_succeeds e).
    cbn [step]. unfold video_callback.
    destruct (count_frame_fields (globs s) (s32 (sd * ht))
                (avpacket_queue_size (mem s)))
      as (_ & _ & _ & Hvs & Has & _ & Hmx & _).
    rewrite Hvs, !div64_sound by exact Hvid.
    match goal with |- context [avpacket_queue_put _ e (mem s) ?p] =>
      destruct (put_step e (mem s) p l Hrep Hacc Hok)
        as (w' & r & l' & Hput & Hrep' & Hacc' & Hl' & _);
      rewrite Hput;
      eexists _, l', (if put_succeeds e then [stored e p] else [])
    end.
    split; [reflexivity|]. split.
    + constructor; cbn [fst mem globs];
        [exact Hrep' | exact Hacc' | exact Hvid |].
      unfold set_video_st. cbn [audio_st]. rewrite Has. exact Haud.
    + unfold flow. cbn [fst snd mem globs]. unfold set_video_st. cbn [muxed].
      rewrite Hmx, Hl', !app_assoc. split; [reflexivity|].
      destruct (put_succeeds e); reflexivity.
  - change (env_ok e (mem s) = true) in Hok.
    change (enqueues (Audio e ctx fr ns ts fl)) with (put_succeeds e).
    cbn [step]. unfold audio_callback. rewrite div64_sound by exact Haud.
    match goal with |- context [avpacket_queue_put _ e (mem s) ?p] =>
      destruct (put_step e (mem s) p l Hrep Hacc Hok)
        as (w' & r & l' & Hput & Hrep' & Hacc' & Hl' & _);
      rewrite Hput;
      eexists _, l', (if put_succeeds e then [stored e p] else [])
    end.
    split; [reflexivity|]. split.
    + constructor; cbn [fst mem globs];
        [exact Hrep' | exact Hacc' | exact Hvid | exact Haud].
    + unfold flow. cbn [fst snd mem globs]. unfold set_audio_st. cbn [muxed].
      rewrite Hl', !app_assoc. split; [reflexivity|].
      destruct (put_succeeds e); reflexivity.
  - change (enqueues Writer) with false. cbn [step].
    assert (Hsame : ∀ g' : globals,
              muxed g' = muxed (globs s) →
              video_st g' = video_st (globs s) →
              audio_st g' = audio_st (globs s) →
              ∀ t' : writer, pending t' = pending t →
              pipeline_inv (mkState g' (mem s), t') l ∧
              flow (mkState g' (mem s), t') l = flow (s, t) l ++ []).
    { intros g' Hm Hv Ha t' Hp. split.
      - constructor; cbn [fst mem globs];
          [exact Hrep | exact Hacc | rewrite Hv; exact Hvid | rewrite Ha; exact Haud].
      - unfold flow. cbn [fst snd mem globs]. by rewrite Hm, Hp, app_nil_r. }
    destruct t as [p|p|p|]; cbn [push_packet].
    + destruct l as [|[a k] l].
      * rewrite (get_empty sizeof_AVPacketList (mem s) p 1 Hrep).
        cbn [Z.eqb]. exists (s, AtGet p), [], []. split; [reflexivity|].
        rewrite app_nil_r. split; [|by split].
        constructor; [exact Hrep | exact Hacc | exact Hvid | exact Haud].
      * destruct (get_step (mem s) a k l p 1 Hrep Hacc) as (w' & Hget & Hrep' & Hacc').
        rewrite Hget. cbn [Z.eqb]. eexists _, l, []. split; [reflexivity|].
        rewrite app_nil_r. split; [|by split].
        constructor; [exact Hrep' | exact Hacc' | exact Hvid | exact Haud].
    + eexists _, l, []. split; [reflexivity|]. split; [|split; [|reflexivity]].
      * constructor; cbn [fst mem globs]; [exact Hrep | exact Hacc | |];
          destruct (frame_limit_reached _); assumption.
      * unfold flow. cbn [fst snd mem globs pending].
        rewrite app_nil_r.
        destruct (frame_limit_reached _); cbn [muxed pthread_cond_signal av_interleaved_write_frame];
          by rewrite <- app_assoc.
    + eexists _, l, []. split; [reflexivity|]. split; [|split; [|reflexivity]].
      * constructor; cbn [fst mem globs]; [exact Hrep | exact Hacc | |];
          destruct (memory_limit_reached _ _); assumption.
      * unfold flow. cbn [fst snd mem globs pending]. rewrite app_nil_r.
        by destruct (memory_limit_reached _ _).
    + exists (s, Returned), l, []. split; [reflexivity|].
      rewrite app_nil_r. split; [|by split].
      constructor; [exact Hrep | exact Hacc | exact Hvid | exact Haud].
Qed.

Lemma run_pipeline evs c l :
  pipeline_inv c l → events_ok evs c = true →
  ∃ c' l' new,
    run sizeof_AVPacketList to_duration evs c = Some c' ∧
    pipeline_inv c' l' ∧
    flow c' l' = flow c l ++ new ∧
    length new = length (List.filter enqueues evs).
Proof.
  revert c l. induction evs as [|ev evs IH]; intros c l Hinv Hok.
  - exists c, l, []. rewrite app_nil_r.
    split; [reflexivity|]. split; [exact Hinv|]. split; reflexivity.
  - simpl in Hok. apply andb_true_iff in Hok as [Hev Hok].
    destruct (step_pipeline ev c l Hinv Hev) as (c1 & l1 & n1 & Hstep & Hinv1 & Hf1 & Hn1).
    rewrite Hstep in Hok.
    destruct (IH c1 l1 Hinv1 Hok) as (c' & l' & n2 & Hrun & Hinv' & Hf & Hn2).
    exists c', l', (n1 ++ n2). cbn [run]. rewrite Hstep.
    split; [exact Hrun|]. split; [exact Hinv'|]. split.
    + by rewrite Hf, Hf1, app_assoc.
    + rewrite length_app, Hn1, Hn2. cbn [List.filter].
      destruct (enqueues ev); reflexivity.
Qed.

(** X3: However the capture callbacks and the writer thread take turns, as long
    as the allocator answers [NULL] or free addresses and both time-base
    numerators are neither 0 nor -1, no step faults (no division without a
    result, no access through a dangling pointer), the queue stays well
    formed, and [size] and [nb_packets] stay in step with the queued
    units. *)
Theorem schedule_never_faults evs s t l :
  queue_rep (mem s) l → accounted sizeof_AVPacketList (mem s) l →
  sound_time_base (video_st (globs s)) → sound_time_base (audio_st (globs s)) →
  events_ok evs (s, t) = true →
  ∃ s' t' l',
    run sizeof_AVPacketList to_duration evs (s, t) = Some (s', t') ∧
    queue_rep (mem s') l' ∧
    avpacket_queue_size (mem s') = u64 (total_bytes sizeof_AVPacketList l'.*2) ∧
    nb_packets (queue (mem s')) = s32 (Z.of_nat (length l')).
Proof.
  intros Hrep Hacc Hv Ha Hok.
  assert (Hinv0 : pipeline_inv (s, t) l) by (constructor; assumption).
  destruct (run_pipeline evs (s, t) l Hinv0 Hok)
    as ([s' t'] & l' & new & Hrun & Hinv & _).
  destruct Hinv as [Hrep' [Hn Hs] _ _].
  exists s', t', l'. split; [exact Hrun|]. split; [exact Hrep'|].
  split; [exact Hs | exact Hn].
Qed.

(** X4: Nothing is lost, duplicated or reordered on the way to the muxer: under
    the same conditions the sequence "written, then held by the writer, then
    queued" only ever grows at its end, and by exactly one unit for every
    callback whose allocations succeed. *)
Theorem units_flow_in_order evs s t l :
  queue_rep (mem s) l → accounted sizeof_AVPacketList (mem s) l →
  sound_time_base (video_st (globs s)) → sound_time_base (audio_st (globs s)) →
  events_ok evs (s, t) = true →
  ∃ s' t' l' new,
    run sizeof_AVPacketList to_duration evs (s, t) = Some (s', t') ∧
    queue_rep (mem s') l' ∧
    muxed (globs s') ++ pending t' ++ l'.*2
      = (muxed (globs s) ++ pending t ++ l.*2) ++ new ∧
    length new = length (List.filter enqueues evs).
Proof.
  intros Hrep Hacc Hv Ha Hok.
  assert (Hinv0 : pipeline_inv (s, t) l) by (constructor; assumption).
  destruct (run_pipeline evs (s, t) l Hinv0 Hok)
    as ([s' t'] & l' & new & Hrun & Hinv & Hf & Hn).
  exists s', t', l', new. split; [exact Hrun|]. split; [exact (inv_rep _ _ Hinv)|].
  split; [exact Hf | exact Hn].
Qed.

(** X5: The audio packager: when the time-base numerator [tb] is not zero, the
    quotient is defined, the byte count fits an [int] at both
    multiplications, and both allocations succeed, the audio callback
    returns 0 and has linked one new unit behind the queue with
    [pts = dts = timestamp / tb], the duration 0 that [av_init_packet]
    left, the key flag, the audio stream's index and size
    [nb_samples * channels * (depth / 8)]; [frame_count] is not touched. *)
Theorem audio_unit e s l ctx frame nb_samples timestamp flags :
  let tb := num (time_base (audio_st (globs s))) in
  let bytes := nb_samples * audio_channels ctx * (audio_sample_depth ctx ÷ 8) in
  queue_rep (mem s) l → env_ok e (mem s) = true → put_succeeds e = true →
  tb ≠ 0 → (tb = -1 → timestamp ≠ INT64_MIN) →
  - 2 ^ 31 <= nb_samples * audio_channels ctx <= INT_MAX →
  - 2 ^ 31 <= bytes <= INT_MAX →
  ∃ s' a k,
    audio_callback sizeof_AVPacketList e s ctx frame nb_samples timestamp flags
      = Some (s', 0) ∧
    queue_rep (mem s') (l ++ [(a, k)]) ∧
    pkt_pts k = timestamp ÷ tb ∧ pkt_dts k = timestamp ÷ tb ∧
    pkt_duration k = 0 ∧
    Z.land (pkt_flags k) AV_PKT_FLAG_KEY = AV_PKT_FLAG_KEY ∧
    pkt_stream_index k = index (audio_st (globs s)) ∧
    pkt_size k = bytes ∧
    frame_count (globs s') = frame_count (globs s).
Proof.
  intros tb bytes Hrep Hok Hsucc Htb Hmin Hfit1 Hfit2.
  unfold audio_callback. fold tb.
  assert (Hdiv : div64 timestamp tb = Some (timestamp ÷ tb)).
  { unfold div64. destruct (Z.eqb_spec tb 0) as [|_]; [done|].
    destruct (Z.eqb_spec timestamp INT64_MIN), (Z.eqb_spec tb (-1)); simpl; try done.
    by destruct Hmin. }
  rewrite Hdiv.
  match goal with |- context [avpacket_queue_put _ e (mem s) ?p] =>
    destruct (put_success_ok sizeof_AVPacketList e (mem s) p l Hrep Hok Hsucc)
      as (w' & a & _ & Hput & Hrep' & _) end.
  rewrite Hput. eexists _, a, _. split; [reflexivity|]. split; [exact Hrep'|].
  simpl. rewrite (s32_small _ Hfit1). fold bytes. rewrite (s32_small _ Hfit2).
  by repeat split.
Qed.

(** X6: A frame whose allocation fails is dropped without a trace in the
    queue: with a sound time base each callback still returns 0, the queue
    and the heap are exactly as before, nothing is signalled or written,
    and the codec's [frame_number] has advanced all the same. *)
Theorem failed_allocation_drops_frame e s :
  env_ok e (mem s) = true → put_succeeds e = false →
  sound_time_base (video_st (globs s)) → sound_time_base (audio_st (globs s)) →
  (∀ frame width height stride timestamp duration flags,
     ∃ s', video_callback sizeof_AVPacketList to_duration e s
             frame width height stride timestamp duration flags = Some (s', 0) ∧
           mem s' = mem s ∧
           cond (globs s') = cond (globs s) ∧ muxed (globs s') = muxed (globs s) ∧
           frame_number (video_st (globs s'))
             = s32 (frame_number (video_st (globs s)) + 1)) ∧
  (∀ ctx frame nb_samples timestamp flags,
     ∃ s', audio_callback sizeof_AVPacketList e s ctx frame nb_samples timestamp flags
             = Some (s', 0) ∧
           mem s' = mem s ∧
           cond (globs s') = cond (globs s) ∧ muxed (globs s') = muxed (globs s) ∧
           frame_number (audio_st (globs s'))
             = s32 (frame_number (audio_st (globs s)) + 1)).
Proof.
  intros Hok Hfail Hv Ha. split.
  - intros frame width height stride timestamp duration flags.
    unfold video_callback.
    destruct (count_frame_fields (globs s) (s32 (stride * height))
                (avpacket_queue_size (mem s)))
      as (_ & _ & _ & Hvs & _ & Hc & Hmx & _).
    rewrite Hvs, !div64_sound by done.
    match goal with |- context [avpacket_queue_put _ e (mem s) ?p] =>
      destruct (put_failure sizeof_AVPacketList e (mem s) p Hok Hfail)
        as (r & Hput & _) end.
    rewrite Hput. eexists. split; [reflexivity|]. simpl.
    by rewrite Hc, Hmx.
  - intros ctx frame nb_samples timestamp flags.
    unfold audio_callback. rewrite div64_sound by done.
    match goal with |- context [avpacket_queue_put _ e (mem s) ?p] =>
      destruct (put_failure sizeof_AVPacketList e (mem s) p Hok Hfail)
        as (r & Hput & _) end.
    rewrite Hput. eexists. split; [reflexivity|]. by simpl.
Qed.

Lemma step_counters ev c c' :
  step sizeof_AVPacketList to_duration ev c = Some c' →
  verbose (globs c'.1) = verbose (globs c.1) ∧
  max_frames (globs c'.1) = max_frames (globs c.1) ∧
  memory_limit (globs c'.1) = memory_limit (globs c.1) ∧
  frame_count (globs c'.1) =
    (if (verbose (globs c.1) =? 0) || negb (is_video ev)
     then frame_count (globs c.1) else u64 (frame_count (globs c.1) + 1)) ∧
  frame_number (video_st (globs c'.1)) =
    (if is_video ev then s32 (frame_number (video_st (globs c.1)) + 1)
     else frame_number (video_st (globs c.1))) ∧
  frame_number (audio_st (globs c'.1)) =
    (if is_audio ev then s32 (frame_number (audio_st (globs c.1)) + 1)
     else frame_number (audio_st (globs c.1))).
Proof.
  destruct c as [s t].
  destruct ev as [e fr wd ht sd ts du fl|e ctx fr ns ts fl|]; cbn [step fst snd].
  - unfold video_callback.
    destruct (count_frame_fields (globs s) (s32 (sd * ht))
                (avpacket_queue_size (mem s)))
      as (Hv & Hmf & Hml & Hvs & Has & _ & _ & Hfc).
    destruct (div64 ts _); [|done]. destruct (div64 du _); [|done].
    destruct (avpacket_queue_put _ _ _ _) as [[w ?]|]; [|done].
    intros [= <-]. cbn [fst globs is_video is_audio negb].
    unfold set_video_st.
    cbn [verbose max_frames memory_limit frame_count video_st audio_st next_frame
         frame_number].
    rewrite orb_false_r, Hvs, Has. by repeat split.
  - unfold audio_callback.
    destruct (div64 ts _); [|done].
    destruct (avpacket_queue_put _ _ _ _) as [[w ?]|]; [|done].
    intros [= <-]. cbn [fst globs is_video is_audio negb].
    rewrite orb_true_r. by repeat split.
  - cbn [is_video is_audio negb]. rewrite orb_true_r.
    destruct t as [p|p|p|]; cbn [push_packet].
    + destruct (avpacket_queue_get _ _ _ _) as [[[w p'] r]| |]; [| |done];
        intros [= <-]; by repeat split.
    + intros [= <-]. cbn [fst globs].
      destruct (frame_limit_reached _); by repeat split.
    + intros [= <-]. cbn [fst globs].
      destruct (memory_limit_reached _ _); by repeat split.
    + intros [= <-]. by repeat split.
Qed.

Lemma s32_range x : - 2 ^ 31 <= s32 x <= INT_MAX.
Proof.
  unfold s32, INT_MAX.
  pose proof (Z.mod_pos_bound (x + 2 ^ 31) (2 ^ 32)). lia.
Qed.

(** The counters hold values of their C types. *)
Definition counters_in_range (g : globals) : Prop :=
  0 <= frame_count g < 2 ^ 64 ∧
  - 2 ^ 31 <= frame_number (video_st g) <= INT_MAX ∧
  - 2 ^ 31 <= frame_number (audio_st g) <= INT_MAX.

Lemma run_counters evs c c' :
  run sizeof_AVPacketList to_duration evs c = Some c' →
  counters_in_range (globs c.1) →
  verbose (globs c'.1) = verbose (globs c.1) ∧
  max_frames (globs c'.1) = max_frames (globs c.1) ∧
  memory_limit (globs c'.1) = memory_limit (globs c.1) ∧
  frame_count (globs c'.1) =
    (if verbose (globs c.1) =? 0 then frame_count (globs c.1)
     else u64 (frame_count (globs c.1)
               + Z.of_nat (length (List.filter is_video evs)))) ∧
  frame_number (video_st (globs c'.1)) =
    s32 (frame_number (video_st (globs c.1))
         + Z.of_nat (length (List.filter is_video evs))) ∧
  frame_number (audio_st (globs c'.1)) =
    s32 (frame_number (audio_st (globs c.1))
         + Z.of_nat (length (List.filter is_audio evs))).
Proof.
  revert c. induction evs as [|ev evs IH]; intros c Hrun (Hfc & Hfv & Hfa).
  - injection Hrun as <-. cbn [List.filter length Z.of_nat].
    rewrite !Z.add_0_r, (u64_small _ Hfc), (s32_small _ Hfv), (s32_small _ Hfa).
    split; [done|]. split; [done|]. split; [done|].
    split; [by destruct (verbose (globs c.1) =? 0) | done].
  - cbn [run] in Hrun.
    destruct (step sizeof_AVPacketList to_duration ev c) as [c1|] eqn:Hstep; [|done].
    destruct (step_counters ev c c1 Hstep) as (Hv1 & Hm1 & Hl1 & Hc1 & Hfv1 & Hfa1).
    assert (Hr1 : counters_in_range (globs c1.1)).
    { split; [|split].
      - rewrite Hc1. destruct (_ || _); [done | apply u64_range].
      - rewrite Hfv1. destruct (is_video ev); [apply s32_range | done].
      - rewrite Hfa1. destruct (is_audio ev); [apply s32_range | done]. }
    destruct (IH c1 Hrun Hr1) as (Hv & Hm & Hl & Hc & Hfv' & Hfa').
    split; [congruence|]. split; [congruence|]. split; [congruence|].
    cbn [List.filter]. split; [|split].
    + rewrite Hc, Hv1, Hc1.
      destruct (verbose (globs c.1) =? 0); [done|]. cbn [orb].
      destruct (is_video ev); cbn [negb length]; [|done].
      rewrite u64_add_l. f_equal. lia.
    + rewrite Hfv', Hfv1.
      destruct (is_video ev); cbn [length]; [|done].
      rewrite s32_add_l. f_equal. lia.
    + rewrite Hfa', Hfa1.
      destruct (is_audio ev); cbn [length]; [|done].
      rewrite s32_add_l. f_equal. lia.
Qed.

(** X7: The counters after any schedule that runs to its end: [frame_count]
    has counted the video callbacks, modulo [2^64], if [verbose] is set and
    has not moved if it is not; audio callbacks and the writer never touch
    it.  Each codec's [frame_number] has counted its own callbacks, modulo
    the width of an [int], whether or not their unit was queued.  The
    configuration ([verbose], [max_frames], [memory_limit]) is never
    written. *)
Theorem capture_counters evs s t s' t' :
  run sizeof_AVPacketList to_duration evs (s, t) = Some (s', t') →
  counters_in_range (globs s) →
  frame_count (globs s') =
    (if verbose (globs s) =? 0 then frame_count (globs s)
     else u64 (frame_count (globs s)
               + Z.of_nat (length (List.filter is_video evs)))) ∧
  frame_number (video_st (globs s')) =
    s32 (frame_number (video_st (globs s))
         + Z.of_nat (length (List.filter is_video evs))) ∧
  frame_number (audio_st (globs s')) =
    s32 (frame_number (audio_st (globs s))
         + Z.of_nat (length (List.filter is_audio evs))) ∧
  verbose (globs s') = verbose (globs s) ∧
  max_frames (globs s') = max_frames (globs s) ∧
  memory_limit (globs s') = memory_limit (globs s).
Proof.
  intros Hrun Hr.
  destruct (run_counters evs (s, t) (s', t') Hrun Hr) as (Hv & Hm & Hl & Hc & Hfv & Hfa).
  split; [exact Hc|]. split; [exact Hfv|]. split; [exact Hfa|].
  split; [exact Hv|]. split; [exact Hm | exact Hl].
Qed.

(** For each unit of [l], whether the bytes of the units behind it exceed
    [limit]. *)
Fixpoint over_limit_count (limit : Z) (l : list AVPacket) : nat :=
  match l with
  | [] => 0
  | _ :: l' =>
      ((if (limit <? u64 (total_bytes sizeof_AVPacketList l'))%Z then 1 else 0)
       + over_limit_count limit l')%nat
  end.

Lemma writer_cycle_memory s p a k l :
  queue_rep (mem s) ((a, k) :: l) →
  accounted sizeof_AVPacketList (mem s) ((a, k) :: l) →
  ∃ s', run sizeof_AVPacketList to_duration [Writer; Writer; Writer] (s, AtGet p)
          = Some (s', AtGet k) ∧
        queue_rep (mem s') l ∧ accounted sizeof_AVPacketList (mem s') l ∧
        memory_limit (globs s') = memory_limit (globs s) ∧
        muxed (globs s') = muxed (globs s) ++ [k] ∧
        memory_signals (globs s') =
          ((if (memory_limit (globs s)
                <? u64 (total_bytes sizeof_AVPacketList l.*2))%Z
            then 1 else 0) + memory_signals (globs s))%nat.
Proof.
  intros Hrep Hacc.
  destruct (get_step (mem s) a k l p 1 Hrep Hacc) as (w & Hget & Hrep' & Hacc').
  cbn [run step push_packet]. rewrite Hget. cbn [Z.eqb run step push_packet mem globs].
  unfold memory_limit_reached, avpacket_queue_size.
  destruct Hacc' as [Hn Hs]. rewrite Hs.
  eexists. split; [reflexivity|]. cbn [mem globs].
  split; [exact Hrep'|]. split; [by split|].
  unfold memory_signals.
  destruct (frame_limit_reached _);
    cbn [memory_limit pthread_cond_signal av_interleaved_write_frame];
    destruct (_ <? _); cbn; repeat split.
Qed.

(** X8: The memory check looks at what is still queued: while the writer
    drains a queue, the cycle that writes a unit signals the memory limit
    exactly when the bytes of the units queued behind it exceed
    [memory_limit]; the unit just written, however large, does not
    count. *)
Theorem memory_limit_checks_what_is_left l s p :
  queue_rep (mem s) l → accounted sizeof_AVPacketList (mem s) l →
  ∃ s' p',
    run sizeof_AVPacketList to_duration (writer_cycles (length l)) (s, AtGet p)
      = Some (s', AtGet p') ∧
    muxed (globs s') = muxed (globs s) ++ l.*2 ∧
    memory_signals (globs s') =
      (over_limit_count (memory_limit (globs s)) l.*2
       + memory_signals (globs s))%nat.
Proof.
  revert s p. induction l as [|[a k] l IH]; intros s p Hrep Hacc.
  - exists s, p. cbn. by rewrite app_nil_r.
  - destruct (writer_cycle_memory s p a k l Hrep Hacc)
      as (s1 & Hrun1 & Hrep1 & Hacc1 & Hml1 & Hm1 & Hsig1).
    destruct (IH s1 k Hrep1 Hacc1) as (s' & p' & Hrun & Hm & Hsig).
    exists s', p'. split; [|split].
    + change (writer_cycles (length ((a, k) :: l)))
        with ([Writer; Writer; Writer] ++ writer_cycles (length l)).
      by rewrite run_app, Hrun1.
    + rewrite Hm, Hm1, fmap_cons, <- app_assoc. done.
    + rewrite Hsig, Hsig1, Hml1, fmap_cons. cbn [over_limit_count snd]. lia.
Qed.

(** X9: Neither limit stops the writer: whatever the counters and limits are,
    the writer thread left alone writes every queued unit, in queue order,
    and then waits in [avpacket_queue_get] for as long as nothing is
    queued. *)
Theorem writer_drains_then_waits l s p n :
  queue_rep (mem s) l →
  ∃ s' p',
    run sizeof_AVPacketList to_duration (writer_cycles (length l)) (s, AtGet p)
      = Some (s', AtGet p') ∧
    queue_rep (mem s') [] ∧
    muxed (globs s') = muxed (globs s) ++ l.*2 ∧
    run sizeof_AVPacketList to_duration (replicate n Writer) (s', AtGet p')
      = Some (s', AtGet p').
Proof.
  intros Hrep.
  destruct (writer_drains sizeof_AVPacketList to_duration l s p Hrep)
    as (s' & p' & Hrun & Hrep' & Hm & _).
  exists s', p'. split; [exact Hrun|]. split; [exact Hrep'|]. split; [exact Hm|].
  induction n as [|n IH]; [done|].
  cbn [replicate run step push_packet].
  by rewrite (get_empty sizeof_AVPacketList (mem s') p' 1 Hrep').
Qed.

(** X10: [max_frames = 0] switches the frame-count check off: however the
    threads take turns, and whatever the counter reaches, no frame-limit
    signal is added to those already sent. *)
Theorem zero_max_frames_disables_limit evs s t s' t' :
  max_frames (globs s) = 0 →
  run sizeof_AVPacketList to_duration evs (s, t) = Some (s', t') →
  FrameLimit ∈ cond (globs s') → FrameLimit ∈ cond (globs s).
Proof.
  revert s t. induction evs as [|ev evs IH]; intros s t Hmax; cbn [run].
  - by intros [= <- <-].
  - destruct (step sizeof_AVPacketList to_duration ev (s, t)) as [[s1 t1]|] eqn:Hstep;
      [|done].
    intros Hrun Hin. apply step_kept in Hstep as [H1 _ _ H4 _]. cbn [fst] in *.
    apply (IH s1 t1) in Hin; [|congruence | exact Hrun].
    destruct H4 as [H|[H|[H Hf]]].
    + by rewrite H in Hin.
    + rewrite H in Hin. by apply elem_of_cons in Hin as [?|?].
    + unfold frame_limit_reached in Hf. by rewrite Hmax in Hf.
Qed.






Lemma video_callback_appends e s l frame width height stride timestamp duration flags :
  queue_rep (mem s) l → accounted sizeof_AVPacketList (mem s) l →
  env_ok e (mem s) = true → put_succeeds e = true →
  sound_time_base (video_st (globs s)) →
  ∃ s' a k,
    video_callback sizeof_AVPacketList to_duration e s
      frame width height stride timestamp duration flags = Some (s', 0) ∧
    queue_rep (mem s') (l ++ [(a, k)]) ∧
    accounted sizeof_AVPacketList (mem s') (l ++ [(a, k)]) ∧
    pkt_pts k = timestamp ÷ num (time_base (video_st (globs s))) ∧
    pkt_dts k = pkt_pts k ∧
    time_base (video_st (globs s')) = time_base (video_st (globs s)).
Proof.
  intros Hrep Hacc Hok Hsucc Hv. unfold video_callback.
  destruct (count_frame_fields (globs s) (s32 (stride * height))
              (avpacket_queue_size (mem s)))
    as (_ & _ & _ & Hvs & _).
  rewrite Hvs, !div64_sound by exact Hv.
  match goal with |- context [avpacket_queue_put _ e (mem s) ?p] =>
    destruct (put_success_ok sizeof_AVPacketList e (mem s) p l Hrep Hok Hsucc)
      as (w' & a & _ & Hput & Hrep' & Hn' & Hs' & _);
    exists (mkState (set_video_st (count_frame (globs s) (s32 (stride * height))
                                     (avpacket_queue_size (mem s)))
                       (next_frame (video_st (globs s)))) w'),
           a, (stored e p)
  end.
  rewrite Hput. split; [reflexivity|]. split; [exact Hrep'|].
  split; [|by cbn]. destruct Hacc as [Hn Hs]. split; cbn [mem].
  - rewrite Hn', Hn, s32_add_l, length_app. cbn [length]. f_equal. lia.
  - rewrite Hs', Hs, node_bytes_size_bytes, u64_add_l, u64_add_r.
    rewrite fmap_app, total_bytes_app.
    match goal with |- context [total_bytes _ [(a, ?k)].*2] =>
      change (total_bytes sizeof_AVPacketList [(a, k)].*2)
        with (size_bytes sizeof_AVPacketList k + 0) end.
    f_equal. lia.
Qed.

(** X14: Presentation times follow capture order: with a positive time-base
    numerator, two video callbacks in a row whose hardware timestamps do
    not decrease queue two units, one behind the other, whose [pts] (and
    [dts], which equals it) do not decrease either. *)
Theorem pts_follow_capture_order e1 e2 s t l
    fr1 wd1 ht1 sd1 ts1 du1 fl1 fr2 wd2 ht2 sd2 ts2 du2 fl2 :
  queue_rep (mem s) l → accounted sizeof_AVPacketList (mem s) l →
  0 < num (time_base (video_st (globs s))) →
  events_ok [Video e1 fr1 wd1 ht1 sd1 ts1 du1 fl1;
             Video e2 fr2 wd2 ht2 sd2 ts2 du2 fl2] (s, t) = true →
  put_succeeds e1 = true → put_succeeds e2 = true →
  ts1 <= ts2 →
  ∃ s' a1 k1 a2 k2,
    run sizeof_AVPacketList to_duration
      [Video e1 fr1 wd1 ht1 sd1 ts1 du1 fl1;
       Video e2 fr2 wd2 ht2 sd2 ts2 du2 fl2] (s, t) = Some (s', t) ∧
    queue_rep (mem s') (l ++ [(a1, k1); (a2, k2)]) ∧
    pkt_pts k1 <= pkt_pts k2 ∧
    pkt_dts k1 = pkt_pts k1 ∧ pkt_dts k2 = pkt_pts k2.
Proof.
  intros Hrep Hacc Hpos Hok Hs1 Hs2 Hts.
  assert (Hv : sound_time_base (video_st (globs s))) by (split; lia).
  cbn [events_ok fst] in Hok. apply andb_true_iff in Hok as [Hok1 Hok].
  change (event_ok (Video e1 fr1 wd1 ht1 sd1 ts1 du1 fl1) s)
    with (env_ok e1 (mem s)) in Hok1.
  destruct (video_callback_appends e1 s l fr1 wd1 ht1 sd1 ts1 du1 fl1
              Hrep Hacc Hok1 Hs1 Hv)
    as (s1 & a1 & k1 & Hcb1 & Hrep1 & Hacc1 & Hp1 & Hd1 & Htb1).
  cbn [step] in Hok. rewrite Hcb1 in Hok.
  apply andb_true_iff in Hok as [Hok2 _]. cbn [fst] in Hok2.
  change (event_ok (Video e2 fr2 wd2 ht2 sd2 ts2 du2 fl2) s1)
    with (env_ok e2 (mem s1)) in Hok2.
  assert (Hv1 : sound_time_base (video_st (globs s1))).
  { unfold sound_time_base. rewrite Htb1. exact Hv. }
  destruct (video_callback_appends e2 s1 _ fr2 wd2 ht2 sd2 ts2 du2 fl2
              Hrep1 Hacc1 Hok2 Hs2 Hv1)
    as (s2 & a2 & k2 & Hcb2 & Hrep2 & _ & Hp2 & Hd2 & _).
  exists s2, a1, k1, a2, k2. cbn [run step]. rewrite Hcb1. cbn [run step].
  rewrite Hcb2. split; [reflexivity|]. split.
  - by rewrite <- app_assoc in Hrep2.
  - split; [|by split]. rewrite Hp1, Hp2, Htb1. by apply Z.quot_le_mono.
Qed.

End Pipeline.

(** ** The command line: the option loop of [main] *)

(** [PIX_FMT_UYVY422], the initial value, is libavutil's older name of
    [AV_PIX_FMT_UYVY422]. *)
Inductive PixelFormat : Type :=
  | AV_PIX_FMT_UYVY422
  | AV_PIX_FMT_YUV422P10.

(** What [getopt] returns for one option of ["?hvc:s:f:a:m:n:p:M:F:C:A:V:"],
    with the value the code takes from [optarg]: [atoi(optarg)] where it
    calls [atoi], the pointer itself for [-f], the answer of
    [av_guess_format] for [-F].  [-a] takes an argument and has no case in
    the [switch]; ['?'] is also what [getopt] returns for an option it does
    not know. *)
Inductive option_arg : Type :=
  | Opt_v
  | Opt_m (n : Z)
  | Opt_c (n : Z)
  | Opt_s (n : Z)
  | Opt_p (n : Z)
  | Opt_f (optarg : Z)
  | Opt_n (n : Z)
  | Opt_M (n : Z)
  | Opt_F (guess : option Z)
  | Opt_A (n : Z)
  | Opt_V (n : Z)
  | Opt_C (n : Z)
  | Opt_a (optarg : Z)
  | Opt_help.

(** The variables the option loop writes: the file-scope [verbose],
    [max_frames], [memory_limit], [pix_fmt] and [fmt], the fields of the
    local [DecklinkConf c], and the local [filename]. *)
Record settings := mkSettings {
  set_verbose : Z;
  set_max_frames : Z;
  set_memory_limit : Z;
  set_pix_fmt : PixelFormat;
  set_fmt : option Z;
  set_filename : option Z;
  set_video_mode : Z;
  set_audio_channels : Z;
  set_audio_sample_depth : Z;
  set_pixel_format : Z;
  set_audio_connection : Z;
  set_video_connection : Z;
  set_instance : Z
}.

(** The initialisers: the file-scope ones, and zero for the fields of [c]
    that its designated initialiser does not name. *)
Definition initial_settings : settings :=
  mkSettings 0 (-1) (1024 * 1024 * 1024) AV_PIX_FMT_UYVY422 None None
             0 0 0 0 0 0 0.

Inductive parse_result : Type :=
  | Parsed (st : settings)
  | Bail (st : settings)
  | Exit (code : Z).

Section CommandLine.

(** What the compiled code yields for an [int] product that does not fit an
    [int].  C leaves that result undefined (one compiler wraps it, another
    carries the wide product on), so it is a parameter of the option
    loop. *)
Variable overflowed : Z → Z.

(** [a * b] on [int]. *)
Definition int_product (a b : Z) : Z :=
  if (- 2 ^ 31 <=? a * b) && (a * b <=? INT_MAX)
  then a * b else overflowed (a * b).

(** [atoi(optarg) * 1024 * 1024 * 1024L] stored in a [uint64_t]: two [int]
    products, then one in [long]. *)
Definition gigabytes (n : Z) : Z :=
  u64 (int_product (int_product n 1024) 1024 * 1024).

Definition handle_option (o : option_arg) (st : settings) : parse_result :=
  match o with
  | Opt_v =>
      Parsed (mkSettings 1 (set_max_frames st) (set_memory_limit st)
                (set_pix_fmt st) (set_fmt st) (set_filename st)
                (set_video_mode st) (set_audio_channels st)
                (set_audio_sample_depth st) (set_pixel_format st)
                (set_audio_connection st) (set_video_connection st)
                (set_instance st))
  | Opt_m n =>
      Parsed (mkSettings (set_verbose st) (set_max_frames st) (set_memory_limit st)
                (set_pix_fmt st) (set_fmt st) (set_filename st)
                n (set_audio_channels st)
                (set_audio_sample_depth st) (set_pixel_format st)
                (set_audio_connection st) (set_video_connection st)
                (set_instance st))
  | Opt_c n =>
      Parsed (mkSettings (set_verbose st) (set_max_frames st) (set_memory_limit st)
                (set_pix_fmt st) (set_fmt st) (set_filename st)
                (set_video_mode st) n
                (set_audio_sample_depth st) (set_pixel_format st)
                (set_audio_connection st) (set_video_connection st)
                (set_instance st))
  | Opt_s n =>
      let st' :=
        mkSettings (set_verbose st) (set_max_frames st) (set_memory_limit st)
          (set_pix_fmt st) (set_fmt st) (set_filename st)
          (set_video_mode st) (set_audio_channels st)
          n (set_pixel_format st)
          (set_audio_connection st) (set_video_connection st)
          (set_instance st) in
      if (n =? 16) || (n =? 32) then Parsed st' else Bail st'
  | Opt_p n =>
      if n =? 8 then
        Parsed (mkSettings (set_verbose st) (set_max_frames st) (set_memory_limit st)
                  AV_PIX_FMT_UYVY422 (set_fmt st) (set_filename st)
                  (set_video_mode st) (set_audio_channels st)
                  (set_audio_sample_depth st) 0
                  (set_audio_connection st) (set_video_connection st)
                  (set_instance st))
      else if n =? 10 then
        Parsed (mkSettings (set_verbose st) (set_max_frames st) (set_memory_limit st)
                  AV_PIX_FMT_YUV422P10 (set_fmt st) (set_filename st)
                  (set_video_mode st) (set_audio_channels st)
                  (set_audio_sample_depth st) 1
                  (set_audio_connection st) (set_video_connection st)
                  (set_instance st))
      else Bail st
  | Opt_f optarg =>
      Parsed (mkSettings (set_verbose st) (set_max_frames st) (set_memory_limit st)
                (set_pix_fmt st) (set_fmt st) (Some optarg)
                (set_video_mode st) (set_audio_channels st)
                (set_audio_sample_depth st) (set_pixel_format st)
                (set_audio_connection st) (set_video_connection st)
                (set_instance st))
  | Opt_n n =>
      Parsed (mkSettings (set_verbose st) n (set_memory_limit st)
                (set_pix_fmt st) (set_fmt st) (set_filename st)
                (set_video_mode st) (set_audio_channels st)
                (set_audio_sample_depth st) (set_pixel_format st)
                (set_audio_connection st) (set_video_connection st)
                (set_instance st))
  | Opt_M n =>
      Parsed (mkSettings (set_verbose st) (set_max_frames st) (gigabytes n)
                (set_pix_fmt st) (set_fmt st) (set_filename st)
                (set_video_mode st) (set_audio_channels st)
                (set_audio_sample_depth st) (set_pixel_format st)
                (set_audio_connection st) (set_video_connection st)
                (set_instance st))
  | Opt_F guess =>
      Parsed (mkSettings (set_verbose st) (set_max_frames st) (set_memory_limit st)
                (set_pix_fmt st) guess (set_filename st)
                (set_video_mode st) (set_audio_channels st)
                (set_audio_sample_depth st) (set_pixel_format st)
                (set_audio_connection st) (set_video_connection st)
                (set_instance st))
  | Opt_A n =>
      Parsed (mkSettings (set_verbose st) (set_max_frames st) (set_memory_limit st)
                (set_pix_fmt st) (set_fmt st) (set_filename st)
                (set_video_mode st) (set_audio_channels st)
                (set_audio_sample_depth st) (set_pixel_format st)
                n (set_video_connection st)
                (set_instance st))
  | Opt_V n =>
      Parsed (mkSettings (set_verbose st) (set_max_frames st) (set_memory_limit st)
                (set_pix_fmt st) (set_fmt st) (set_filename st)
                (set_video_mode st) (set_audio_channels st)
                (set_audio_sample_depth st) (set_pixel_format st)
                (set_audio_connection st) n
                (set_instance st))
  | Opt_C n =>
      Parsed (mkSettings (set_verbose st) (set_max_frames st) (set_memory_limit st)
                (set_pix_fmt st) (set_fmt st) (set_filename st)
                (set_video_mode st) (set_audio_channels st)
                (set_audio_sample_depth st) (set_pixel_format st)
                (set_audio_connection st) (set_video_connection st)
                n)
  | Opt_a _ => Parsed st
  | Opt_help => Exit 0
  end.

(** The [while ((ch = getopt(...)) != -1)] loop over the options that
    [getopt] finds, in order: [goto bail] and [exit(0)] end it. *)
Fixpoint parse_options (os : list option_arg) (st : settings) : parse_result :=
  match os with
  | [] => Parsed st
  | o :: os' =>
      match handle_option o st with
      | Parsed st' => parse_options os' st'
      | r => r
      end
  end.

(** An option the loop gets past. *)
Definition accepted (o : option_arg) : bool :=
  match o with
  | Opt_s n => (n =? 16) || (n =? 32)
  | Opt_p n => (n =? 8) || (n =? 10)
  | Opt_help => false
  | _ => true
  end.

Definition is_M (o : option_arg) : bool :=
  match o with
  | Opt_M _ => true
  | _ => false
  end.

(** The pixel format and the [pixel_format] field of [c] say the same. *)
Definition pixel_formats_agree (st : settings) : Prop :=
  set_pixel_format st = 0 ∧ set_pix_fmt st = AV_PIX_FMT_UYVY422 ∨
  set_pixel_format st = 1 ∧ set_pix_fmt st = AV_PIX_FMT_YUV422P10.

Definition sample_depth_checked (st st0 : settings) : Prop :=
  set_audio_sample_depth st = set_audio_sample_depth st0 ∨
  set_audio_sample_depth st = 16 ∨ set_audio_sample_depth st = 32.

Lemma parse_options_app os1 os2 st0 :
  parse_options (os1 ++ os2) st0 =
    match parse_options os1 st0 with
    | Parsed st1 => parse_options os2 st1
    | r => r
    end.
Proof.
  revert st0. induction os1 as [|o os1 IH]; intros st0; cbn [app parse_options].
  - done.
  - by destruct (handle_option o st0).
Qed.

Lemma handle_option_checks o st0 :
  pixel_formats_agree st0 →
  if accepted o
  then ∃ st, handle_option o st0 = Parsed st ∧ pixel_formats_agree st ∧
             (set_audio_sample_depth st = set_audio_sample_depth st0 ∨
              set_audio_sample_depth st = 16 ∨ set_audio_sample_depth st = 32)
  else ∀ st, handle_option o st0 ≠ Parsed st.
Proof.
  intros Hagree. destruct o as [|n|n|n|n|f|n|n|g|n|n|n|a|]; cbn [accepted handle_option];
    try (eexists; split; [reflexivity|]; split; [exact Hagree | by left]).
  - destruct (Z.eqb_spec n 16) as [->|H16]; cbn [orb].
    { eexists. split; [reflexivity|]. split; [exact Hagree|]. right. by left. }
    destruct (Z.eqb_spec n 32) as [->|H32].
    { eexists. split; [reflexivity|]. split; [exact Hagree|]. right. by right. }
    done.
  - destruct (Z.eqb_spec n 8) as [->|H8]; cbn [orb].
    { eexists. split; [reflexivity|]. split; [by left | by left]. }
    destruct (Z.eqb_spec n 10) as [->|H10].
    { eexists. split; [reflexivity|]. split; [by right | by left]. }
    done.
  - done.
Qed.

(** X12: The option loop runs to its end exactly when every [-s] value is 16 or
    32, every [-p] value is 8 or 10 and no help (or unknown option) is among
    the options; otherwise it leaves through [goto bail] or [exit(0)].
    When it runs to its end, [pix_fmt] and [c.pixel_format] say the same
    (0 with UYVY422, 1 with YUV422P10), and [c.audio_sample_depth] is 16, 32
    or what it was before the loop. *)
Theorem option_loop_checks os st0 :
  pixel_formats_agree st0 →
  if forallb accepted os
  then ∃ st, parse_options os st0 = Parsed st ∧ pixel_formats_agree st ∧
             sample_depth_checked st st0
  else ∀ st, parse_options os st0 ≠ Parsed st.
Proof.
  revert st0. induction os as [|o os IH]; intros st0 Hagree; cbn [forallb parse_options].
  - exists st0. split; [done|]. split; [done | by left].
  - pose proof (handle_option_checks o st0 Hagree) as Ho.
    destruct (accepted o); cbn [andb].
    + destruct Ho as (st1 & -> & Hagree1 & Hd1).
      specialize (IH st1 Hagree1). destruct (forallb accepted os).
      * destruct IH as (st & Hp & Ha & Hd). exists st. split; [done|]. split; [done|].
        unfold sample_depth_checked in *.
        destruct Hd as [Hd|Hd]; [rewrite Hd; exact Hd1 | by right].
      * exact IH.
    + intros st. destruct (handle_option o st0) as [st1| |] eqn:Hh; [|done|done].
      by destruct (Ho st1).
Qed.

Lemma int_product_fits a b :
  - 2 ^ 31 <= a * b <= INT_MAX → int_product a b = a * b.
Proof.
  intros [Hlo Hhi]. unfold int_product.
  apply Z.leb_le in Hlo. apply Z.leb_le in Hhi. by rewrite Hlo, Hhi.
Qed.

Lemma gigabytes_exact n : 0 <= n <= 2047 → gigabytes n = n * 2 ^ 30.
Proof.
  intros Hn. unfold gigabytes.
  rewrite (int_product_fits n 1024) by (unfold INT_MAX; lia).
  rewrite (int_product_fits (n * 1024) 1024) by (unfold INT_MAX; lia).
  rewrite u64_small by lia. lia.
Qed.

Lemma parse_without_M os st0 st :
  forallb (λ o, negb (is_M o)) os = true →
  parse_options os st0 = Parsed st →
  set_memory_limit st = set_memory_limit st0.
Proof.
  revert st0. induction os as [|o os IH]; intros st0; cbn [forallb parse_options].
  - by intros _ [= <-].
  - intros [Ho Hos]%andb_true_iff.
    destruct (handle_option o st0) as [st1| |] eqn:Hh; [|done|done].
    intros Hp. rewrite (IH st1 Hos Hp).
    destruct o; cbn [handle_option is_M negb] in *; try done;
      try (by injection Hh as <-).
    + destruct (_ || _); [by injection Hh as <- | done].
    + destruct (n =? 8); [by injection Hh as <-|].
      destruct (n =? 10); [by injection Hh as <- | done].
Qed.

(** X13: The memory limit after a completed option loop is the one of the last
    [-M]: for [-M n] with [0 <= n <= 2047] exactly [n] GiB, the range in
    which the two [int] products of [atoi(optarg) * 1024 * 1024 * 1024L]
    do not overflow; without any [-M] it is left as it was (1 GiB by its
    initialiser).  No other option touches it. *)
Theorem memory_limit_option os1 n os2 st0 st :
  parse_options (os1 ++ Opt_M n :: os2) st0 = Parsed st →
  forallb (λ o, negb (is_M o)) os2 = true →
  0 <= n <= 2047 →
  set_memory_limit st = n * 2 ^ 30 ∧
  (∀ os st', forallb (λ o, negb (is_M o)) os = true →
             parse_options os initial_settings = Parsed st' →
             set_memory_limit st' = 2 ^ 30).
Proof.
  intros Hp Hos2 Hn. split.
  - rewrite parse_options_app in Hp.
    destruct (parse_options os1 st0) as [st1| |]; [|done|done].
    cbn [parse_options handle_option] in Hp.
    rewrite (parse_without_M os2 _ st Hos2 Hp). cbn [set_memory_limit].
    by apply gigabytes_exact.
  - intros os st' Hos Hp'. by rewrite (parse_without_M os _ st' Hos Hp').
Qed.

End CommandLine.

(** ** Concrete runs of the further properties *)

Lemma no_node_leaked_witness :
  ∃ w l w',
    apply_ops sizeof_node
      [Put (alloc 5 100) vpkt; Put (no_reference 9) apkt; Put (alloc 7 200) apkt;
       Get blank_pkt 0; Put no_memory vpkt; Put (alloc 5 300) apkt]
      avpacket_queue_init = Some w ∧
    queue_rep w l ∧
    (∀ a, is_Some (heap w !! a) ↔ a ∈ l.*1) ∧
    size (heap w) = length l ∧
    avpacket_queue_end w = Some w' ∧
    heap w' = ∅ ∧
    unrefd w' = l.*2.
Proof.
  apply (no_node_leaked sizeof_node).
  vm_compute. reflexivity.
Defined.

Lemma empty_queue_handoff_witness :
  avpacket_queue_get sizeof_node avpacket_queue_init blank_pkt 1
    = (if 1 =? 0 then Ret (avpacket_queue_init, blank_pkt, 0) else Wait) ∧
  ∃ w1, avpacket_queue_put sizeof_node (alloc 5 100) avpacket_queue_init vpkt
          = Some (w1, 0) ∧
        avpacket_queue_get sizeof_node w1 blank_pkt 1
          = Ret (signalled avpacket_queue_init, stored (alloc 5 100) vpkt, 1).
Proof.
  apply (empty_queue_handoff sizeof_node (alloc 5 100) avpacket_queue_init
           vpkt blank_pkt 1).
  - apply init_rep.
  - split; reflexivity.
  - reflexivity.
  - reflexivity.
Defined.

Lemma started_sound :
  sound_time_base (video_st (globs started)) ∧
  sound_time_base (audio_st (globs started)).
Proof. repeat split; discriminate. Qed.

(** Three frames captured and written in turn, an audio callback that gets
    no memory, and one that does. *)
Definition mixed_schedule : list event :=
  alternate 3
  ++ [Audio no_memory (mkDecklinkConf 2 16) 8192 1920 48000 0;
      Audio (alloc 9 900) (mkDecklinkConf 2 16) 8192 1920 96000 0].

Lemma schedule_never_faults_witness :
  ∃ s' t' l',
    run sizeof_node int_duration mixed_schedule (started, AtGet blank_pkt)
      = Some (s', t') ∧
    queue_rep (mem s') l' ∧
    avpacket_queue_size (mem s') = u64 (total_bytes sizeof_node l'.*2) ∧
    nb_packets (queue (mem s')) = s32 (Z.of_nat (length l')).
Proof.
  apply (schedule_never_faults sizeof_node int_duration mixed_schedule
           started (AtGet blank_pkt) []).
  - apply init_rep.
  - split; reflexivity.
  - apply started_sound.
  - apply started_sound.
  - vm_compute. reflexivity.
Defined.

Lemma units_flow_in_order_witness :
  ∃ s' t' l' new,
    run sizeof_node int_duration mixed_schedule (started, AtGet blank_pkt)
      = Some (s', t') ∧
    queue_rep (mem s') l' ∧
    muxed (globs s') ++ pending t' ++ l'.*2
      = (muxed (globs started) ++ pending (AtGet blank_pkt) ++ []) ++ new ∧
    length new = length (List.filter enqueues mixed_schedule).
Proof.
  apply (units_flow_in_order sizeof_node int_duration mixed_schedule
           started (AtGet blank_pkt) []).
  - apply init_rep.
  - split; reflexivity.
  - apply started_sound.
  - apply started_sound.
  - vm_compute. reflexivity.
Defined.

Lemma audio_unit_witness :
  ∃ s' a k,
    audio_callback sizeof_node (alloc 9 300) ntsc_state (mkDecklinkConf 2 16)
      8192 1920 (-96001) 0 = Some (s', 0) ∧
    queue_rep (mem s') ([(5%positive, vpkt); (7%positive, apkt)] ++ [(a, k)]) ∧
    pkt_pts k = -96001 ∧ pkt_dts k = -96001 ∧
    pkt_duration k = 0 ∧
    Z.land (pkt_flags k) AV_PKT_FLAG_KEY = AV_PKT_FLAG_KEY ∧
    pkt_stream_index k = 1 ∧
    pkt_size k = 7680 ∧
    frame_count (globs s') = frame_count (globs ntsc_state).
Proof.
  apply (audio_unit sizeof_node (alloc 9 300) ntsc_state
           [(5%positive, vpkt); (7%positive, apkt)] (mkDecklinkConf 2 16)
           8192 1920 (-96001) 0).
  - apply two_units_rep.
  - reflexivity.
  - reflexivity.
  - simpl. lia.
  - simpl. lia.
  - split; vm_compute; discriminate.
  - split; vm_compute; discriminate.
Defined.

Lemma failed_allocation_drops_frame_witness :
  (∀ frame width height stride timestamp duration flags,
     ∃ s', video_callback sizeof_node int_duration no_memory started
             frame width height stride timestamp duration flags = Some (s', 0) ∧
           mem s' = mem started ∧
           cond (globs s') = cond (globs started) ∧
           muxed (globs s') = muxed (globs started) ∧
           frame_number (video_st (globs s'))
             = s32 (frame_number (video_st (globs started)) + 1)) ∧
  (∀ ctx frame nb_samples timestamp flags,
     ∃ s', audio_callback sizeof_node no_memory started ctx frame nb_samples
             timestamp flags = Some (s', 0) ∧
           mem s' = mem started ∧
           cond (globs s') = cond (globs started) ∧
           muxed (globs s') = muxed (globs started) ∧
           frame_number (audio_st (globs s'))
             = s32 (frame_number (audio_st (globs started)) + 1)).
Proof.
  apply (failed_allocation_drops_frame sizeof_node int_duration no_memory started).
  - reflexivity.
  - reflexivity.
  - apply started_sound.
  - apply started_sound.
Defined.

Lemma limited_in_range : counters_in_range (globs limited).
Proof. unfold counters_in_range, INT_MAX. simpl. lia. Qed.

Lemma capture_counters_witness :
  match run sizeof_node int_duration mixed_schedule (limited, AtGet blank_pkt) with
  | Some (s', t') =>
      frame_count (globs s') =
        (if verbose (globs limited) =? 0 then frame_count (globs limited)
         else u64 (frame_count (globs limited)
                   + Z.of_nat (length (List.filter is_video mixed_schedule)))) ∧
      frame_number (video_st (globs s')) =
        s32 (frame_number (video_st (globs limited))
             + Z.of_nat (length (List.filter is_video mixed_schedule))) ∧
      frame_number (audio_st (globs s')) =
        s32 (frame_number (audio_st (globs limited))
             + Z.of_nat (length (List.filter is_audio mixed_schedule))) ∧
      verbose (globs s') = verbose (globs limited) ∧
      max_frames (globs s') = max_frames (globs limited) ∧
      memory_limit (globs s') = memory_limit (globs limited)
  | None => False
  end.
Proof.
  destruct (run sizeof_node int_duration mixed_schedule (limited, AtGet blank_pkt))
    as [[s' t']|] eqn:Hr.
  - exact (capture_counters sizeof_node int_duration mixed_schedule limited
             (AtGet blank_pkt) s' t' Hr limited_in_range).
  - vm_compute in Hr. discriminate Hr.
Defined.

(** A limit of 100 bytes with the two units queued: 152 bytes remain behind
    the first. *)
Definition tight_memory : state :=
  mkState (mkGlobals 0 (-1) 0 100 video audio [] [] []) two_units.

Lemma two_units_accounted : accounted sizeof_node two_units
                              [(5%positive, vpkt); (7%positive, apkt)].
Proof. split; reflexivity. Qed.

Lemma memory_limit_checks_what_is_left_witness :
  ∃ s' p',
    run sizeof_node int_duration (writer_cycles 2) (tight_memory, AtGet blank_pkt)
      = Some (s', AtGet p') ∧
    muxed (globs s') = muxed (globs tight_memory) ++ [vpkt; apkt] ∧
    memory_signals (globs s') =
      (over_limit_count sizeof_node (memory_limit (globs tight_memory)) [vpkt; apkt]
       + memory_signals (globs tight_memory))%nat.
Proof.
  exact (memory_limit_checks_what_is_left sizeof_node int_duration
           [(5%positive, vpkt); (7%positive, apkt)] tight_memory blank_pkt
           two_units_rep two_units_accounted).
Defined.

Lemma writer_drains_then_waits_witness :
  ∃ s' p',
    run sizeof_node int_duration (writer_cycles 2) (over_limit, AtGet blank_pkt)
      = Some (s', AtGet p') ∧
    queue_rep (mem s') [] ∧
    muxed (globs s') = muxed (globs over_limit) ++ [vpkt; apkt] ∧
    run sizeof_node int_duration (replicate 5 Writer) (s', AtGet p')
      = Some (s', AtGet p').
Proof.
  exact (writer_drains_then_waits sizeof_node int_duration
           [(5%positive, vpkt); (7%positive, apkt)] over_limit blank_pkt 5
           two_units_rep).
Defined.

(** Started with [-v -n 0]. *)
Definition unlimited : state :=
  mkState (mkGlobals 1 0 0 (1024 * 1024 * 1024) video audio [] [] [])
          avpacket_queue_init.

Lemma zero_max_frames_disables_limit_witness :
  match run sizeof_node int_duration (alternate 3) (unlimited, AtGet blank_pkt) with
  | Some (s', _) =>
      FrameLimit ∈ cond (globs s') → FrameLimit ∈ cond (globs unlimited)
  | None => False
  end.
Proof.
  destruct (run sizeof_node int_duration (alternate 3) (unlimited, AtGet blank_pkt))
    as [[s' t']|] eqn:Hr.
  - exact (zero_max_frames_disables_limit sizeof_node int_duration (alternate 3)
             unlimited (AtGet blank_pkt) s' t' eq_refl Hr).
  - vm_compute in Hr. discriminate Hr.
Defined.


Lemma initial_settings_agree : pixel_formats_agree initial_settings.
Proof. left. split; reflexivity. Qed.

(** A compiler that wraps an [int] product that does not fit. *)
Definition wrapping : Z → Z := s32.

Lemma option_loop_checks_witness :
  (∃ st, parse_options wrapping
           [Opt_v; Opt_p 10; Opt_s 32; Opt_a 7; Opt_f 1; Opt_n 250]
           initial_settings = Parsed st ∧
         pixel_formats_agree st ∧ sample_depth_checked st initial_settings) ∧
  (∀ st, parse_options wrapping [Opt_f 1; Opt_s 24; Opt_v] initial_settings
         ≠ Parsed st).
Proof.
  split.
  - exact (option_loop_checks wrapping
             [Opt_v; Opt_p 10; Opt_s 32; Opt_a 7; Opt_f 1; Opt_n 250]
             initial_settings initial_settings_agree).
  - exact (option_loop_checks wrapping [Opt_f 1; Opt_s 24; Opt_v]
             initial_settings initial_settings_agree).
Defined.

Lemma memory_limit_option_witness :
  match parse_options wrapping
          ([Opt_v; Opt_M 5] ++ Opt_M 4 :: [Opt_f 1; Opt_s 16])
          initial_settings with
  | Parsed st =>
      set_memory_limit st = 4 * 2 ^ 30 ∧
      (∀ os st', forallb (λ o, negb (is_M o)) os = true →
                 parse_options wrapping os initial_settings = Parsed st' →
                 set_memory_limit st' = 2 ^ 30)
  | _ => False
  end.
Proof.
  destruct (parse_options wrapping
              ([Opt_v; Opt_M 5] ++ Opt_M 4 :: [Opt_f 1; Opt_s 16])
              initial_settings) as [st| |] eqn:Hp.
  - apply (memory_limit_option wrapping [Opt_v; Opt_M 5] 4 [Opt_f 1; Opt_s 16]
             initial_settings st Hp); [reflexivity | lia].
  - vm_compute in Hp. discriminate Hp.
  - vm_compute in Hp. discriminate Hp.
Defined.

Lemma pts_follow_capture_order_witness :
  ∃ s' a1 k1 a2 k2,
    run sizeof_node int_duration
      [Video (alloc 9 300) 4096 1920 1080 3840 (-3004001) 1001000 0;
       Video (alloc 11 400) 4096 1920 1080 3840 (-2003001) 1001000 0]
      (ntsc_state, AtGet blank_pkt) = Some (s', AtGet blank_pkt) ∧
    queue_rep (mem s')
      ([(5%positive, vpkt); (7%positive, apkt)] ++ [(a1, k1); (a2, k2)]) ∧
    pkt_pts k1 <= pkt_pts k2 ∧
    pkt_dts k1 = pkt_pts k1 ∧ pkt_dts k2 = pkt_pts k2.
Proof.
  apply (pts_follow_capture_order sizeof_node int_duration
           (alloc 9 300) (alloc 11 400) ntsc_state (AtGet blank_pkt)
           [(5%positive, vpkt); (7%positive, apkt)]).
  - apply two_units_rep.
  - apply two_units_accounted.
  - simpl. lia.
  - vm_compute. reflexivity.
  - reflexivity.
  - reflexivity.
  - lia.
Defined.
